(** * Authinator: a shallow embedding of the TOTP secret store and of the
      passcode derivation it calls.

    The development follows [main.go]: the store operations [loadData],
    [saveData], [createEntry], [removeEntry], [getCode] and the HTTP handlers
    are written in a small state-and-abort monad over a [World] (the storage
    file, the two output streams, the clock).  The passcode library that
    [main.go] imports ([totp.GenerateCode]) is not part of the repository; it
    is modelled from the specification on top of an executable SHA-1/HMAC. *)

From Stdlib Require Import ZArith List String Ascii Bool Lia DecimalString.
Import ListNotations.

Local Open Scope string_scope.
Local Open Scope list_scope.
Local Open Scope Z_scope.

(* ================================================================== *)
(** * Bytes and 32-bit words *)
(* ================================================================== *)

(** A byte is a [Z] in [0, 256); a word is a [Z] in [0, 2^32). *)
Definition bytes := list Z.

Definition wrap32 (x : Z) : Z := x mod 4294967296.

Definition add32 (x y : Z) : Z := wrap32 (x + y).

Definition not32 (x : Z) : Z := 4294967295 - x.

Definition rotl32 (n : Z) (x : Z) : Z :=
  wrap32 (Z.lor (Z.shiftl x n) (Z.shiftr x (32 - n))).

(** Big-endian value of a byte string. *)
Definition be_value (bs : bytes) : Z :=
  fold_left (fun acc b => acc * 256 + b) bs 0.

(** The [n] low-order bytes of [x], most significant byte first. *)
Fixpoint be_bytes (n : nat) (x : Z) : bytes :=
  match n with
  | O => []
  | S k => (Z.shiftr x (8 * Z.of_nat k)) mod 256 :: be_bytes k x
  end.

Definition byte_of_ascii (c : ascii) : Z := Z.of_N (N_of_ascii c).

Definition bytes_of_string (s : string) : bytes :=
  map byte_of_ascii (list_ascii_of_string s).

(* ================================================================== *)
(** * SHA-1 (FIPS 180-4) and HMAC (RFC 2104) *)
(* ================================================================== *)

Module Sha1.

Definition block_size : nat := 64.

(** Message padding: a 1 bit, zeros up to 56 mod 64, the bit length on
    64 bits. *)
Definition pad (msg : bytes) : bytes :=
  let len := Z.of_nat (List.length msg) in
  let zeros := Z.to_nat ((55 - len) mod 64) in
  msg ++ 128 :: repeat 0 zeros ++ be_bytes 8 (8 * len).

Fixpoint words_of (n : nat) (bs : bytes) : list Z :=
  match n with
  | O => []
  | S k => be_value (firstn 4 bs) :: words_of k (skipn 4 bs)
  end.

Fixpoint blocks_of (n : nat) (bs : bytes) : list (list Z) :=
  match n with
  | O => []
  | S k => words_of 16 (firstn 64 bs) :: blocks_of k (skipn 64 bs)
  end.

(** The message schedule, grown from the 16 words of a block to [16 + n]
    words. *)
Fixpoint schedule (n : nat) (w : list Z) : list Z :=
  match n with
  | O => w
  | S k =>
      let t := List.length w in
      let x := Z.lxor (Z.lxor (nth (t - 3) w 0) (nth (t - 8) w 0))
                      (Z.lxor (nth (t - 14) w 0) (nth (t - 16) w 0)) in
      schedule k (w ++ [rotl32 1 x])
  end.

Definition f (t : nat) (b c d : Z) : Z :=
  if (t <? 20)%nat then Z.lor (Z.land b c) (Z.land (not32 b) d)
  else if (t <? 40)%nat then Z.lxor (Z.lxor b c) d
  else if (t <? 60)%nat then
    Z.lor (Z.lor (Z.land b c) (Z.land b d)) (Z.land c d)
  else Z.lxor (Z.lxor b c) d.

Definition K (t : nat) : Z :=
  if (t <? 20)%nat then 1518500249       (* 5A827999 *)
  else if (t <? 40)%nat then 1859775393  (* 6ED9EBA1 *)
  else if (t <? 60)%nat then 2400959708  (* 8F1BBCDC *)
  else 3395469782.                       (* CA62C1D6 *)

Record state := mk { ha : Z; hb : Z; hc : Z; hd : Z; he : Z }.

Definition init : state :=
  mk 1732584193 4023233417 2562383102 271733878 3285377520.

Fixpoint rounds (t : nat) (w : list Z) (s : state) : state :=
  match w with
  | [] => s
  | wt :: w' =>
      let tmp := add32 (add32 (add32 (add32 (rotl32 5 (ha s))
                                            (f t (hb s) (hc s) (hd s)))
                                     (he s)) wt) (K t) in
      rounds (S t) w' (mk tmp (ha s) (rotl32 30 (hb s)) (hc s) (hd s))
  end.

Definition compress (s : state) (block : list Z) : state :=
  let r := rounds 0 (schedule 64 block) s in
  mk (add32 (ha s) (ha r)) (add32 (hb s) (hb r)) (add32 (hc s) (hc r))
     (add32 (hd s) (hd r)) (add32 (he s) (he r)).

Definition digest (s : state) : bytes :=
  be_bytes 4 (ha s) ++ be_bytes 4 (hb s) ++ be_bytes 4 (hc s)
    ++ be_bytes 4 (hd s) ++ be_bytes 4 (he s).

Definition sum (msg : bytes) : bytes :=
  let p := pad msg in
  digest (fold_left compress (blocks_of (List.length p / 64)%nat p) init).

End Sha1.

Module Hmac.

(** The key brought to one block: hashed when longer, then zero padded. *)
Definition block_key (key : bytes) : bytes :=
  let k := if (Sha1.block_size <? List.length key)%nat then Sha1.sum key else key in
  k ++ repeat 0 (Sha1.block_size - List.length k).

Definition xor_pad (p : Z) (k : bytes) : bytes := map (Z.lxor p) k.

(** Modelled from the spec: step 2 of [computeCode] (section 4.2), the HMAC
    of the library with SHA-1 as hash function, written after RFC 2104. *)
Definition sha1 (key msg : bytes) : bytes :=
  let k := block_key key in
  Sha1.sum (xor_pad 92 k ++ Sha1.sum (xor_pad 54 k ++ msg)).

End Hmac.

(* ================================================================== *)
(** * The passcode library called by [main.go] *)
(* ================================================================== *)

(** The failures of a derivation (the library's [error] result). *)
Inductive error := DecodeError | KeyError.

Inductive result (A : Type) :=
| Ok (a : A)
| Err (e : error).
Arguments Ok {A} a.
Arguments Err {A} e.

Module Base32.

Definition is_space (c : ascii) : bool :=
  let n := N_of_ascii c in
  (n =? 32)%N || (n =? 9)%N || (n =? 10)%N || (n =? 13)%N.

Definition is_padding (c : ascii) : bool := (N_of_ascii c =? 61)%N.

Definition upper (c : ascii) : ascii :=
  let n := N_of_ascii c in
  if (97 <=? n)%N && (n <=? 122)%N then ascii_of_N (n - 32) else c.

(** Modelled from the spec: the normalisation of the Base32Codec (section
    4.1), upper-cased input without padding and white space. *)
Definition clean (s : string) : list ascii :=
  map upper
    (filter (fun c => negb (is_space c || is_padding c))
       (list_ascii_of_string s)).

(** Position of a character in the alphabet A-Z 2-7. *)
Definition value (c : ascii) : option Z :=
  let n := N_of_ascii c in
  if (65 <=? n)%N && (n <=? 90)%N then Some (Z.of_N (n - 65))
  else if (50 <=? n)%N && (n <=? 55)%N then Some (Z.of_N (n - 24))
  else None.

Fixpoint values (cs : list ascii) : option (list Z) :=
  match cs with
  | [] => Some []
  | c :: r =>
      match value c, values r with
      | Some v, Some vs => Some (v :: vs)
      | _, _ => None
      end
  end.

(** The 5-bit groups read as one big-endian number; the bits that do not
    fill a byte are dropped. *)
Definition pack (vs : list Z) : bytes :=
  let n := (List.length vs * 5 / 8)%nat in
  let x := fold_left (fun acc v => acc * 32 + v) vs 0 in
  be_bytes n (Z.shiftr x (Z.of_nat (List.length vs * 5 - n * 8))).

(** Modelled from the spec: the decoder of the Base32Codec (section 4.1) that
    the library applies to a secret; it fails on a character outside the
    alphabet and on an input that yields no byte. *)
Definition decode (s : string) : result bytes :=
  match values (clean s) with
  | None => Err DecodeError
  | Some vs =>
      match pack vs with
      | [] => Err DecodeError
      | key => Ok key
      end
  end.

End Base32.

Module Hotp.

(** Modelled from the spec: step 3 of [computeCode] (section 4.2), the
    dynamic truncation: the 4 bytes at the offset given by the low nibble of
    the last byte, top bit of the first one cleared, big-endian. *)
Definition truncate (mac : bytes) : Z :=
  let offset := Z.land (last mac 0) 15 in
  match firstn 4 (skipn (Z.to_nat offset) mac) with
  | b0 :: rest => be_value (Z.land b0 127 :: rest)
  | [] => 0
  end.

Definition digit_char (d : Z) : ascii := ascii_of_N (48 + Z.to_N d).

(** The [digits] low-order decimal digits of [n], zero padded. *)
Fixpoint decimal (digits : nat) (n : Z) : string :=
  match digits with
  | O => ""
  | S k => (decimal k (n / 10) ++ String (digit_char (n mod 10)) "")%string
  end.

(** Modelled from the spec: [HOTPEngine.computeCode] (section 4.2), the
    counter-based primitive inside the library. *)
Definition computeCode (key : bytes) (counter : Z) (digits : nat)
  : result string :=
  match key with
  | [] => Err KeyError
  | _ =>
      let mac := Hmac.sha1 key (be_bytes 8 counter) in
      Ok (decimal digits (truncate mac mod 10 ^ Z.of_nat digits))
  end.

End Hotp.

(** A [time.Time], as far as the program observes it: whole seconds since the
    Unix epoch (an [int64]).  [main.go] and the library read a time through
    [Unix()] only, and [Add] is only applied to whole seconds. *)
Definition Time := Z.

Definition Unix (t : Time) : Z := t.

(** [time.Second], in nanoseconds ([time.Duration] is an [int64] of them). *)
Definition Second : Z := 1000000000.

Definition Add (t : Time) (d : Z) : Time := t + d / Second.

Module Totp.

Definition period : Z := 30.

(** Modelled from the spec: [TOTPEngine.currentCode] (section 4.3). *)
Definition currentCode (key : bytes) (atTime : Time) : result string :=
  Hotp.computeCode key (Unix atTime / period) 6.

(** Modelled from the spec: [totp.GenerateCode] of the imported library,
    which [main.go] calls on the stored secret text: the secret decoded by
    the Base32Codec, then [currentCode]. *)
Definition GenerateCode (secret : string) (t : Time) : result string :=
  match Base32.decode secret with
  | Err e => Err e
  | Ok key => currentCode key t
  end.

End Totp.

(* ================================================================== *)
(** * The data model of [main.go] *)
(* ================================================================== *)

Record TOTPEntry := { Name : string; Secret : string }.

Record TOTPData := { Entries : list TOTPEntry }.

(** What the storage file [totp.json] is to the program: a text that
    [json.Unmarshal] decodes to some [TOTPData], a text that it rejects
    (empty and truncated files are of this kind), or a file that exists and
    cannot be opened or read.  Names and secrets are texts that
    [json.MarshalIndent] writes and [json.Unmarshal] reads back unchanged. *)
Inductive File :=
| Document (d : TOTPData)
| Malformed
| NoOpen
| NoRead.

(** The course of the next [os.WriteFile]: it opens the file with
    [O_WRONLY|O_CREATE|O_TRUNC] and then writes, so it can fail before it
    touched the file or after it truncated it. *)
Inductive Fault := NoFault | OpenFault | WriteFault.

Record World := {
  disk : option File;          (* [None]: [os.Stat dataFile] fails *)
  write_fault : Fault;
  clock : nat -> Time;         (* successive readings of [time.Now()] *)
  ticks : nat;
  clip_nonnil : bool;          (* [clipboard.Write] returns a non-nil value *)
  stdout : list string;
  stderr : list string
}.

Definition set_disk (f : option File) (w : World) : World :=
  {| disk := f; write_fault := write_fault w; clock := clock w;
     ticks := ticks w; clip_nonnil := clip_nonnil w;
     stdout := stdout w; stderr := stderr w |}.

Definition set_fault (f : Fault) (w : World) : World :=
  {| disk := disk w; write_fault := f; clock := clock w;
     ticks := ticks w; clip_nonnil := clip_nonnil w;
     stdout := stdout w; stderr := stderr w |}.

Definition tick (w : World) : World :=
  {| disk := disk w; write_fault := write_fault w; clock := clock w;
     ticks := S (ticks w); clip_nonnil := clip_nonnil w;
     stdout := stdout w; stderr := stderr w |}.

Definition to_stdout (s : string) (w : World) : World :=
  {| disk := disk w; write_fault := write_fault w; clock := clock w;
     ticks := ticks w; clip_nonnil := clip_nonnil w;
     stdout := stdout w ++ [s]; stderr := stderr w |}.

Definition to_stderr (s : string) (w : World) : World :=
  {| disk := disk w; write_fault := write_fault w; clock := clock w;
     ticks := ticks w; clip_nonnil := clip_nonnil w;
     stdout := stdout w; stderr := stderr w ++ [s] |}.

(** ** Computations: state passing, with [log.Fatalf] ending the process *)

Inductive Run (A : Type) :=
| Done (a : A) (w : World)
| Exit (w : World).
Arguments Done {A} a w.
Arguments Exit {A} w.

Definition M (A : Type) := World -> Run A.

Definition ret {A} (a : A) : M A := fun w => Done a w.

Definition bind {A B} (m : M A) (k : A -> M B) : M B :=
  fun w => match m w with
           | Done a w' => k a w'
           | Exit w' => Exit w'
           end.

Declare Scope go_scope.
Delimit Scope go_scope with go.
Notation "x <- m ;; k" := (bind m (fun x => k))
  (at level 100, m at next level, right associativity) : go_scope.
Notation "m ;;; k" := (bind m (fun _ => k))
  (at level 100, right associativity) : go_scope.
Local Open Scope go_scope.

Definition final {A} (r : Run A) : World :=
  match r with Done _ w => w | Exit w => w end.

Definition Println (s : string) : M unit := fun w => Done tt (to_stdout s w).

(** [log.Printf]: a line on standard error. *)
Definition logPrintf (s : string) : M unit := fun w => Done tt (to_stderr s w).

(** [log.Fatalf]: a line on standard error, then [os.Exit(1)].  The [%v] of
    the underlying error is left out of the line. *)
Definition logFatalf {A} (s : string) : M A := fun w => Exit (to_stderr s w).

Definition Now : M Time := fun w => Done (clock w (ticks w)) (tick w).

(** [fmt.Sprintf "%d"] of an [int64]. *)
Definition itoa (z : Z) : string := NilZero.string_of_int (Z.to_int z).

(** ** Storage *)

Definition loadData : M TOTPData := fun w =>
  match disk w with
  | None => Done {| Entries := [] |} w
  | Some NoOpen => logFatalf "Error reading data file" w
  | Some NoRead => logFatalf "Error reading file content" w
  | Some Malformed => logFatalf "Error parsing data file" w
  | Some (Document d) => Done d w
  end.

(** [os.WriteFile dataFile file 0644]; [true] when it returns an error.  The
    call is several system calls, and a failure after the opening leaves the
    file truncated or partly written. *)
Definition WriteFile (d : TOTPData) : M bool := fun w =>
  match write_fault w with
  | NoFault => Done false (set_disk (Some (Document d)) w)
  | OpenFault => Done true w
  | WriteFault => Done true (set_disk (Some Malformed) w)
  end.

(** [json.MarshalIndent] has no failing case on a [TOTPData]. *)
Definition saveData (data : TOTPData) : M unit :=
  failed <- WriteFile data ;;
  if failed then logFatalf "Error writing data file" else ret tt.

(** ** Commands *)

Definition has_name (name : string) (entries : list TOTPEntry) : bool :=
  existsb (fun entry => Name entry =? name)%string entries.

(** [createEntry] once its snapshot is loaded. *)
Definition createEntry_with (name secret : string) (data : TOTPData) : M unit :=
  if has_name name (Entries data) then
    Println "Entry with this name already exists."
  else
    saveData {| Entries := Entries data ++ [{| Name := name; Secret := secret |}] |} ;;;
    Println "Entry created successfully!".

Definition createEntry (name secret : string) : M unit :=
  data <- loadData ;;
  createEntry_with name secret data.

(** The loop of [removeEntry]: the flag [found] and the slice [newEntries]. *)
Fixpoint remove_loop (name : string) (entries : list TOTPEntry)
    (found : bool) (newEntries : list TOTPEntry) : bool * list TOTPEntry :=
  match entries with
  | [] => (found, newEntries)
  | entry :: rest =>
      if negb (Name entry =? name)%string
      then remove_loop name rest found (newEntries ++ [entry])
      else remove_loop name rest true newEntries
  end.

Definition removeEntry (name : string) : M unit :=
  data <- loadData ;;
  let (found, newEntries) := remove_loop name (Entries data) false [] in
  if negb found then
    Println ("No entry found with the name: " ++ name)%string
  else
    saveData {| Entries := newEntries |} ;;;
    Println ("Entry '" ++ name ++ "' has been removed.")%string.

(** [remaining := 30 - (t.Unix() % 30)]; Go's [%] truncates towards zero. *)
Definition secondsRemaining (t : Time) : Z := 30 - Z.rem (Unix t) 30.

(** [nextTime := currentTime.Add(time.Duration(remaining) * time.Second)] *)
Definition nextTime (currentTime : Time) : Time :=
  Add currentTime (secondsRemaining currentTime * Second).

Definition nextCode (secret : string) (currentTime : Time) : result string :=
  Totp.GenerateCode secret (nextTime currentTime).

Definition find_entry (name : string) (entries : list TOTPEntry)
  : option TOTPEntry :=
  find (fun entry => Name entry =? name)%string entries.

(** [if err := clipboard.Write(...); err != nil { log.Printf } else { ... }] *)
Definition copy_to_clipboard (code : string) : M unit := fun w =>
  if clip_nonnil w
  then logPrintf "Failed to copy code to clipboard" w
  else Println "Current code copied to clipboard." w.

Definition getCode (name : string) : M unit :=
  data <- loadData ;;
  match find_entry name (Entries data) with
  | Some entry =>
      currentTime <- Now ;;
      match Totp.GenerateCode (Secret entry) currentTime with
      | Err _ => logFatalf "Error generating current TOTP code"
      | Ok code =>
          let remaining := secondsRemaining currentTime in
          Println ("Your current TOTP code is: " ++ code
                   ++ " (Time remaining: " ++ itoa remaining ++ " seconds)")%string ;;;
          match nextCode (Secret entry) currentTime with
          | Err _ => logFatalf "Error generating next TOTP code"
          | Ok next =>
              Println ("After this, your next TOTP code will be: " ++ next)%string ;;;
              copy_to_clipboard code
          end
      end
  | None => Println "No entry found with that name."
  end.

Fixpoint list_loop (entries : list TOTPEntry) : M unit :=
  match entries with
  | [] => ret tt
  | entry :: rest =>
      t <- Now ;;
      match Totp.GenerateCode (Secret entry) t with
      | Err _ =>
          logPrintf ("Error generating TOTP code for " ++ Name entry)%string ;;;
          list_loop rest
      | Ok code =>
          t' <- Now ;;
          Println (" - " ++ Name entry ++ ": " ++ code ++ " (expires in "
                   ++ itoa (secondsRemaining t') ++ " seconds)")%string ;;;
          list_loop rest
      end
  end.

Definition listEntries : M unit :=
  data <- loadData ;;
  match Entries data with
  | [] => Println "No entries found."
  | entries => Println "Stored TOTP entries:" ;;; list_loop entries
  end.

(** ** HTTP handlers *)

(** What a handler leaves in its [http.ResponseWriter]. *)
Inductive Body :=
| Text (s : string)
| JsonEntries (entries : list TOTPEntry)
| JsonCode (code : string) (expires_in : Z).

Record Response := { status : Z; body : Body }.

Definition StatusOK : Z := 200.
Definition StatusBadRequest : Z := 400.
Definition StatusNotFound : Z := 404.
Definition StatusMethodNotAllowed : Z := 405.
Definition StatusInternalServerError : Z := 500.

(** [http.Error w msg code] *)
Definition httpError (msg : string) (code : Z) : Response :=
  {| status := code; body := Text (msg ++ String "010"%char "")%string |}.

(** A body written without [WriteHeader] goes out with status 200. *)
Definition written (b : Body) : Response := {| status := StatusOK; body := b |}.

Definition listEntriesHTTP : M Response :=
  data <- loadData ;;
  ret (written (JsonEntries (Entries data))).

(** The request body after [json.NewDecoder(r.Body).Decode(&entry)]: [None]
    when decoding fails; an absent field is the empty string. *)
Definition createEntryHTTP (decoded : option TOTPEntry) : M Response :=
  match decoded with
  | None => ret (httpError "Invalid input" StatusBadRequest)
  | Some entry =>
      if (Name entry =? "")%string || (Secret entry =? "")%string then
        ret (httpError "Invalid input" StatusBadRequest)
      else
        createEntry (Name entry) (Secret entry) ;;;
        ret (written (Text ("TOTP entry '" ++ Name entry
                             ++ "' created successfully."
                             ++ String "010"%char "")%string))
  end.

Definition getCodeHTTP (name : string) : M Response :=
  data <- loadData ;;
  match find_entry name (Entries data) with
  | Some entry =>
      t <- Now ;;
      match Totp.GenerateCode (Secret entry) t with
      | Err _ =>
          ret (httpError "Error generating TOTP code" StatusInternalServerError)
      | Ok code =>
          t' <- Now ;;
          ret (written (JsonCode code (secondsRemaining t')))
      end
  | None => ret (httpError "No entry found with that name." StatusNotFound)
  end.

Definition removeEntryHTTP (name : string) : M Response :=
  data <- loadData ;;
  let (found, newEntries) := remove_loop name (Entries data) false [] in
  if negb found then
    ret (httpError "No entry found with that name." StatusNotFound)
  else
    saveData {| Entries := newEntries |} ;;;
    ret (written (Text ("Entry '" ++ name ++ "' has been removed."
                         ++ String "010"%char "")%string)).

Inductive Method := GET | POST | DELETE | OtherMethod.

(** Requests on [/totps]. *)
Definition handleTOTPRequests (m : Method) (decoded : option TOTPEntry)
  : M Response :=
  match m with
  | GET => listEntriesHTTP
  | POST => createEntryHTTP decoded
  | _ => ret (httpError "Method not allowed" StatusMethodNotAllowed)
  end.

(** Requests on [/totps/{name}]. *)
Definition handleTOTPRequestsByID (m : Method) (name : string) : M Response :=
  match m with
  | GET => getCodeHTTP name
  | DELETE => removeEntryHTTP name
  | _ => ret (httpError "Method not allowed" StatusMethodNotAllowed)
  end.

(** ** Two [createEntry] calls served at the same time

    [net/http] runs every request in a goroutine of its own and [main.go]
    takes no lock, so the two calls interleave at their accesses to the
    storage file: each call is the step [loadData] followed by the step
    [createEntry_with] on the snapshot it loaded. *)
Inductive Call :=
| Pending (name secret : string)
| Loaded (name secret : string) (data : TOTPData)
| Returned
| Exited.

Definition call_step (c : Call) (w : World) : Call * World :=
  match c with
  | Pending name secret =>
      match loadData w with
      | Done data w' => (Loaded name secret data, w')
      | Exit w' => (Exited, w')
      end
  | Loaded name secret data =>
      match createEntry_with name secret data w with
      | Done _ w' => (Returned, w')
      | Exit w' => (Exited, w')
      end
  | Returned => (Returned, w)
  | Exited => (Exited, w)
  end.

(** A schedule names, step by step, which of the two calls moves. *)
Fixpoint interleave (schedule : list bool) (c1 c2 : Call) (w : World)
  : Call * Call * World :=
  match schedule with
  | [] => (c1, c2, w)
  | true :: rest => let (c1', w') := call_step c1 w in interleave rest c1' c2 w'
  | false :: rest => let (c2', w') := call_step c2 w in interleave rest c1 c2' w'
  end.

(** The entries a later [loadData] finds. *)
Definition stored (w : World) : list TOTPEntry :=
  match disk w with
  | Some (Document d) => Entries d
  | _ => []
  end.

Definition names (entries : list TOTPEntry) : list string := map Name entries.

(** ** Worlds the program can be in

    The program starts without a storage file; from then on the file only
    changes through [createEntry] and [removeEntry], whatever their
    arguments, the state of the device and the way they end. *)
Inductive reachable : World -> Prop :=
| reach_init w : disk w = None -> reachable w
| reach_fault w f : reachable w -> reachable (set_fault f w)
| reach_create w name secret :
    reachable w -> reachable (final (createEntry name secret w))
| reach_remove w name :
    reachable w -> reachable (final (removeEntry name w))
| reach_read w name :
    reachable w -> reachable (final (getCode name w))
| reach_list w :
    reachable w -> reachable (final (listEntries w))
| reach_http w m decoded :
    reachable w -> reachable (final (handleTOTPRequests m decoded w))
| reach_http_id w m name :
    reachable w -> reachable (final (handleTOTPRequestsByID m name w)).

(** No two stored entries share a name. *)
Definition unique_names (w : World) : Prop := NoDup (names (stored w)).

(** [m] keeps the invariant [I], however it ends, and returns values in
    [Q]. *)
Definition keeps (I : World -> Prop) {A} (m : M A) (Q : A -> Prop) : Prop :=
  forall w, I w ->
    match m w with
    | Done a w' => I w' /\ Q a
    | Exit w' => I w'
    end.

Definition anything {A} (_ : A) : Prop := True.

(** A world to run examples in. *)
Definition world0 (now : Time) : World :=
  {| disk := None; write_fault := NoFault; clock := fun _ => now; ticks := O;
     clip_nonnil := false; stdout := []; stderr := [] |}.

Definition acme : TOTPEntry :=
  {| Name := "acme"; Secret := "JBSWY3DPEHPK3PXP" |}.

(** The key of the RFC 4226 test vectors. *)
Definition rfc_key : bytes := bytes_of_string "12345678901234567890".

(** Reading a decimal string back. *)
Definition digit_value (c : ascii) : Z := Z.of_N (N_of_ascii c) - 48.

Definition is_digit (c : ascii) : bool :=
  (0 <=? digit_value c) && (digit_value c <=? 9).

Definition decimal_value (s : string) : Z :=
  fold_left (fun acc c => acc * 10 + digit_value c) (list_ascii_of_string s) 0.

Definition is_byte (b : Z) : Prop := 0 <= b < 256.

(** The entries of [entries] whose name is not [name]. *)
Definition others (name : string) (entries : list TOTPEntry) : list TOTPEntry :=
  filter (fun entry => negb (Name entry =? name)%string) entries.

(* ================================================================== *)
(** * The entry points *)
(* ================================================================== *)

(** [fmt.Print]: the text as it is given. *)
Definition Print (s : string) : M unit := fun w => Done tt (to_stdout s w).

(** [s] without the leading [prefix], when it starts with it. *)
Fixpoint cut_prefix (prefix s : string) : option string :=
  match prefix, s with
  | EmptyString, _ => Some s
  | String a p, String b r => if Ascii.eqb a b then cut_prefix p r else None
  | String _ _, EmptyString => None
  end.

(** [strings.TrimPrefix] *)
Definition TrimPrefix (s prefix : string) : string :=
  match cut_prefix prefix s with
  | Some rest => rest
  | None => s
  end.

(** [handleTOTPRequestsByID] from the path of the request. *)
Definition handleTOTPRequestsByPath (m : Method) (path : string) : M Response :=
  let name := TrimPrefix path "/totps/" in
  handleTOTPRequestsByID m name.

Section Main.

(** The guide that [main] prints; [createEntryInteractive], which reads the
    name and the secret from standard input; [startServer], which serves
    the handlers until the process ends. *)
Variable guide : string.
Variable createEntryInteractive : M unit.
Variable startServer : M unit.

(** [main] on [os.Args], the name of the program first. *)
Definition main (Args : list string) : M unit :=
  match Args with
  | [] | [_] => Print guide
  | _ :: command :: rest =>
      if (command =? "create")%string then
        match rest with
        | [name; secret] => createEntry name secret
        | _ => createEntryInteractive
        end
      else if (command =? "list")%string then listEntries
      else if (command =? "remove")%string then
        match rest with
        | [name] => removeEntry name
        | _ => Println "Usage: authinator remove [name]"
        end
      else if (command =? "serve")%string then startServer
      else
        match rest with
        | [] => getCode command
        | _ => Println "Usage: authinator [command] [arguments...]"
        end
  end.

End Main.

(** The words that [main] takes as commands. *)
Definition command_words : list string := ["create"; "list"; "remove"; "serve"].

(** Lines written so far, on either stream. *)
Definition lines_out (w : World) : nat :=
  (List.length (stdout w) + List.length (stderr w))%nat.

(** The storage file exists and does not load. *)
Definition unusable (w : World) : Prop :=
  exists f, disk w = Some f /\ forall d, f <> Document d.

(** The configurations that two calls of [createEntry], for distinct names
    and against an empty store, go through, each with the entries that the
    storage file holds at that point. *)
Section Race.

Variables n1 s1 n2 s2 : string.

Let e1 := {| Name := n1; Secret := s1 |}.
Let e2 := {| Name := n2; Secret := s2 |}.
Let loaded1 (entries : list TOTPEntry) := Loaded n1 s1 {| Entries := entries |}.
Let loaded2 (entries : list TOTPEntry) := Loaded n2 s2 {| Entries := entries |}.

Inductive race : Call -> Call -> list TOTPEntry -> Prop :=
| race_none : race (Pending n1 s1) (Pending n2 s2) []
| race_load1 : race (loaded1 []) (Pending n2 s2) []
| race_load2 : race (Pending n1 s1) (loaded2 []) []
| race_both : race (loaded1 []) (loaded2 []) []
| race_done1 : race Returned (Pending n2 s2) [e1]
| race_done2 : race (Pending n1 s1) Returned [e2]
| race_stale2 : race Returned (loaded2 []) [e1]
| race_stale1 : race (loaded1 []) Returned [e2]
| race_after1 : race Returned (loaded2 [e1]) [e1]
| race_after2 : race (loaded1 [e2]) Returned [e2]
| race_12 : race Returned Returned [e1; e2]
| race_21 : race Returned Returned [e2; e1]
| race_lost1 : race Returned Returned [e2]
| race_lost2 : race Returned Returned [e1].

End Race.

(* ================================================================== *)
(** * Lemmas on bytes *)
(* ================================================================== *)

Lemma be_bytes_length n x : List.length (be_bytes n x) = n.
Proof. induction n as [|n IH]; simpl; congruence. Qed.

Lemma be_bytes_range n x : Forall is_byte (be_bytes n x).
Proof.
  induction n as [|n IH]; simpl; constructor; auto.
  unfold is_byte. apply Z.mod_pos_bound. lia.
Qed.

Lemma fold_be_shift bs : forall acc,
  fold_left (fun a b => a * 256 + b) bs acc
  = acc * 256 ^ Z.of_nat (List.length bs) + be_value bs.
Proof.
  unfold be_value.
  induction bs as [|b bs IH]; intros acc.
  - simpl. lia.
  - cbn [fold_left List.length]. rewrite IH, (IH (0 * 256 + b)).
    rewrite Nat2Z.inj_succ, Z.pow_succ_r by lia. ring.
Qed.

Lemma be_value_cons b bs :
  be_value (b :: bs) = b * 256 ^ Z.of_nat (List.length bs) + be_value bs.
Proof. unfold be_value at 1. cbn [fold_left]. rewrite fold_be_shift. ring. Qed.

(** [be_bytes] writes the number modulo [256^n], most significant byte
    first. *)
Lemma be_value_be_bytes n x :
  be_value (be_bytes n x) = x mod 256 ^ Z.of_nat n.
Proof.
  induction n as [|n IH].
  - simpl. now rewrite Z.mod_1_r.
  - cbn [be_bytes]. rewrite be_value_cons, be_bytes_length, IH.
    rewrite Z.shiftr_div_pow2 by lia.
    rewrite Nat2Z.inj_succ, Z.pow_succ_r by lia.
    replace (2 ^ (8 * Z.of_nat n)) with (256 ^ Z.of_nat n)
      by (change 256 with (2 ^ 8); rewrite <- Z.pow_mul_r by lia; reflexivity).
    set (p := 256 ^ Z.of_nat n).
    assert (Hp : 0 < p) by (apply Z.pow_pos_nonneg; lia).
    rewrite (Z.mul_comm 256 p), Z.rem_mul_r by lia. ring.
Qed.

(* ================================================================== *)
(** * Lemmas on the passcode derivation *)
(* ================================================================== *)

Lemma sha1_sum_length msg : List.length (Sha1.sum msg) = 20%nat.
Proof.
  unfold Sha1.sum, Sha1.digest.
  repeat rewrite length_app. repeat rewrite be_bytes_length. reflexivity.
Qed.

Lemma sha1_sum_range msg : Forall is_byte (Sha1.sum msg).
Proof.
  unfold Sha1.sum, Sha1.digest.
  repeat (apply Forall_app; split); apply be_bytes_range.
Qed.

Lemma hmac_length key msg : List.length (Hmac.sha1 key msg) = 20%nat.
Proof. apply sha1_sum_length. Qed.

Lemma hmac_range key msg : Forall is_byte (Hmac.sha1 key msg).
Proof. apply sha1_sum_range. Qed.

Lemma nth_is_byte (l : bytes) n : Forall is_byte l -> is_byte (nth n l 0).
Proof.
  intros H. revert n.
  induction H as [|b l Hb _ IH]; intros [|n]; simpl; auto; unfold is_byte; lia.
Qed.

Lemma last_is_byte (l : bytes) : Forall is_byte l -> is_byte (last l 0).
Proof.
  induction 1 as [|b l Hb Hl IH]; simpl.
  - unfold is_byte; lia.
  - destruct l; auto.
Qed.

(** Four consecutive elements of a list. *)
Lemma window4 (l : bytes) : forall n,
  (n + 4 <= List.length l)%nat ->
  firstn 4 (skipn n l)
  = [nth n l 0; nth (n + 1) l 0; nth (n + 2) l 0; nth (n + 3) l 0].
Proof.
  induction l as [|b l IH]; intros n Hn.
  - simpl in Hn. lia.
  - destruct n as [|n].
    + destruct l as [|b1 [|b2 [|b3 l]]]; simpl in Hn; try lia. reflexivity.
    + simpl in Hn. cbn [skipn]. rewrite IH by lia. reflexivity.
Qed.

Lemma low_nibble b : 0 <= Z.land b 15 <= 15.
Proof.
  assert (E : Z.land b 15 = b mod 2 ^ 4)
    by (change 15 with (Z.ones 4); apply Z.land_ones; lia).
  rewrite E. pose proof (Z.mod_pos_bound b (2 ^ 4) eq_refl) as H.
  change (2 ^ 4) with 16 in *. lia.
Qed.

Lemma clear_top_bit b : 0 <= Z.land b 127 < 128.
Proof.
  change 127 with (Z.ones 7). rewrite Z.land_ones by lia.
  apply Z.mod_pos_bound. reflexivity.
Qed.

(** Dynamic truncation written out on the bytes of a 20-byte MAC. *)
Lemma truncate_bytes (mac : bytes) :
  List.length mac = 20%nat -> Forall is_byte mac ->
  let offset := Z.to_nat (Z.land (last mac 0) 15) in
  Hotp.truncate mac
  = Z.land (nth offset mac 0) 127 * 2 ^ 24 + nth (offset + 1) mac 0 * 2 ^ 16
    + nth (offset + 2) mac 0 * 2 ^ 8 + nth (offset + 3) mac 0.
Proof.
  intros Hlen Hrange offset. unfold Hotp.truncate. fold offset.
  assert (Hoff : (offset <= 15)%nat).
  { unfold offset. pose proof (low_nibble (last mac 0)) as Hn. lia. }
  rewrite window4 by lia.
  unfold be_value. cbn [fold_left]. change (2 ^ 24) with 16777216.
  change (2 ^ 16) with 65536. change (2 ^ 8) with 256. ring.
Qed.

Lemma truncate_range (mac : bytes) :
  List.length mac = 20%nat -> Forall is_byte mac ->
  0 <= Hotp.truncate mac < 2 ^ 31.
Proof.
  intros Hlen Hrange. rewrite truncate_bytes by assumption.
  set (o := Z.to_nat (Z.land (last mac 0) 15)).
  pose proof (clear_top_bit (nth o mac 0)) as H0.
  pose proof (nth_is_byte mac (o + 1) Hrange) as H1.
  pose proof (nth_is_byte mac (o + 2) Hrange) as H2.
  pose proof (nth_is_byte mac (o + 3) Hrange) as H3.
  unfold is_byte in *.
  change (2 ^ 24) with 16777216. change (2 ^ 16) with 65536.
  change (2 ^ 8) with 256. change (2 ^ 31) with 2147483648. lia.
Qed.

Lemma list_ascii_app s1 s2 :
  list_ascii_of_string (s1 ++ s2)
  = list_ascii_of_string s1 ++ list_ascii_of_string s2.
Proof. induction s1 as [|c s1 IH]; simpl; congruence. Qed.

Lemma string_length_app s1 s2 :
  String.length (s1 ++ s2) = (String.length s1 + String.length s2)%nat.
Proof. induction s1 as [|c s1 IH]; simpl; congruence. Qed.

Lemma decimal_length digits n : String.length (Hotp.decimal digits n) = digits.
Proof.
  revert n. induction digits as [|k IH]; intros n; simpl; auto.
  rewrite string_length_app, IH. simpl. lia.
Qed.

Lemma digit_char_value d : 0 <= d <= 9 -> digit_value (Hotp.digit_char d) = d.
Proof.
  intros Hd. unfold digit_value, Hotp.digit_char.
  rewrite N_ascii_embedding by lia. lia.
Qed.

Lemma decimal_digits digits n :
  forallb is_digit (list_ascii_of_string (Hotp.decimal digits n)) = true.
Proof.
  revert n. induction digits as [|k IH]; intros n; simpl; auto.
  rewrite list_ascii_app, forallb_app, IH. simpl.
  pose proof (Z.mod_pos_bound n 10 eq_refl) as Hd.
  unfold is_digit. rewrite digit_char_value by lia.
  rewrite andb_true_r. apply andb_true_iff. split; apply Z.leb_le; lia.
Qed.

Lemma decimal_value_decimal digits n :
  decimal_value (Hotp.decimal digits n) = n mod 10 ^ Z.of_nat digits.
Proof.
  unfold decimal_value. revert n.
  induction digits as [|k IH]; intros n.
  - simpl. now rewrite Z.mod_1_r.
  - cbn [Hotp.decimal]. rewrite list_ascii_app, fold_left_app, IH.
    cbn [list_ascii_of_string fold_left].
    pose proof (Z.mod_pos_bound n 10 eq_refl) as Hd.
    rewrite digit_char_value by lia.
    rewrite Nat2Z.inj_succ, Z.pow_succ_r by lia.
    assert (Hp : 0 < 10 ^ Z.of_nat k) by (apply Z.pow_pos_nonneg; lia).
    rewrite Z.rem_mul_r by lia. ring.
Qed.

Lemma computeCode_nonempty key counter digits :
  key <> [] ->
  Hotp.computeCode key counter digits
  = Ok (Hotp.decimal digits
          (Hotp.truncate (Hmac.sha1 key (be_bytes 8 counter))
           mod 10 ^ Z.of_nat digits)).
Proof. destruct key; [congruence | reflexivity]. Qed.

(* ================================================================== *)
(** * Lemmas on the store *)
(* ================================================================== *)

Lemma has_name_In name entries :
  has_name name entries = true <-> In name (names entries).
Proof.
  unfold has_name, names. rewrite existsb_exists, in_map_iff.
  split; intros [e [H1 H2]]; exists e.
  - apply String.eqb_eq in H2. auto.
  - split; [assumption | now apply String.eqb_eq].
Qed.

Lemma has_name_false name entries :
  has_name name entries = false <-> ~ In name (names entries).
Proof.
  rewrite <- has_name_In. destruct (has_name name entries); split; congruence.
Qed.

(** The loop of [removeEntry] filters, and raises [found] on a match. *)
Lemma remove_loop_spec name entries : forall found acc,
  remove_loop name entries found acc
  = (found || has_name name entries, acc ++ others name entries).
Proof.
  induction entries as [|e entries IH]; intros found acc; cbn [remove_loop].
  - simpl. now rewrite orb_false_r, app_nil_r.
  - unfold has_name, others. cbn [existsb filter].
    destruct (Name e =? name)%string; cbn [negb]; rewrite IH.
    + now rewrite orb_true_r.
    + rewrite <- app_assoc. reflexivity.
Qed.

Lemma names_app l1 l2 : names (l1 ++ l2) = names l1 ++ names l2.
Proof. apply map_app. Qed.

Lemma others_names name entries x :
  In x (names (others name entries)) <-> In x (names entries) /\ x <> name.
Proof.
  unfold names, others. rewrite !in_map_iff. split.
  - intros [e [He Hin]]. apply filter_In in Hin as [Hin Hne].
    apply negb_true_iff, String.eqb_neq in Hne. subst x. eauto.
  - intros [[e [He Hin]] Hx]. exists e. split; auto.
    apply filter_In. split; auto.
    apply negb_true_iff, String.eqb_neq. congruence.
Qed.

Lemma others_NoDup name entries :
  NoDup (names entries) -> NoDup (names (others name entries)).
Proof.
  induction entries as [|e entries IH]; intros H; cbn.
  - constructor.
  - inversion H as [|? ? Hnot Hrest]; subst.
    destruct (Name e =? name)%string; cbn; auto.
    constructor; auto.
    intros Hin. apply others_names in Hin. tauto.
Qed.

Lemma append_NoDup name secret entries :
  NoDup (names entries) -> ~ In name (names entries) ->
  NoDup (names (entries ++ [{| Name := name; Secret := secret |}])).
Proof.
  intros Hnd Hnot. rewrite names_app. cbn.
  apply NoDup_app; auto.
  - repeat constructor. intros [].
  - intros x Hx [Hx'|[]]. cbn in Hx'. congruence.
Qed.

(** With unique names, filtering out a present name takes out one entry. *)
Lemma others_unique name entries :
  NoDup (names entries) -> In name (names entries) ->
  exists before entry after,
    entries = before ++ entry :: after /\ Name entry = name
    /\ others name entries = before ++ after.
Proof.
  induction entries as [|e entries IH]; intros Hnd Hin; [destruct Hin|].
  inversion Hnd as [|? ? Hnot Hrest]; subst.
  unfold others. cbn [filter]. fold (others name entries).
  destruct (Name e =? name)%string eqn:E; cbn [negb].
  - apply String.eqb_eq in E. exists [], e, entries. repeat split; auto.
    cbn. unfold others. apply forallb_filter_id.
    apply forallb_forall. intros x Hx.
    apply negb_true_iff, String.eqb_neq. intros Heq.
    apply Hnot. rewrite E. rewrite <- Heq. now apply in_map.
  - apply String.eqb_neq in E. destruct Hin as [Hin|Hin]; [congruence|].
    destruct (IH Hrest Hin) as (b & x & a & H1 & H2 & H3).
    exists (e :: b), x, a. cbn. rewrite H1 at 1. rewrite H3. auto.
Qed.

Lemma find_entry_none name entries :
  has_name name entries = false -> find_entry name entries = None.
Proof.
  unfold has_name, find_entry. induction entries as [|e entries IH]; cbn; auto.
  destruct (Name e =? name)%string; cbn; [discriminate | assumption].
Qed.

Lemma find_entry_last name secret entries :
  has_name name entries = false ->
  find_entry name (entries ++ [{| Name := name; Secret := secret |}])
  = Some {| Name := name; Secret := secret |}.
Proof.
  unfold has_name, find_entry. induction entries as [|e entries IH]; cbn.
  - now rewrite String.eqb_refl.
  - destruct (Name e =? name)%string; cbn; [discriminate | assumption].
Qed.

Lemma others_has_name name entries : has_name name (others name entries) = false.
Proof.
  apply has_name_false. intros H. apply others_names in H. tauto.
Qed.

(* ================================================================== *)
(** * Passcodes and time windows *)
(* ================================================================== *)

(** C1. For a non-empty key and any time [t], [currentCode key t] is the
    RFC 4226 value at counter [floor(Unix t / 30)]: the counter goes into the
    HMAC-SHA1 as 8 big-endian bytes; the 4 bytes at the offset given by the
    low nibble of the last MAC byte, top bit cleared, make an integer below
    [2^31]; the code is that integer modulo [10^6], written with exactly six
    decimal digits.  [totp.GenerateCode], which [getCode] calls, is this
    function on the decoded secret, and the ten published values of the
    RFC 4226 key come out. *)
Theorem currentCode_rfc4226 (key : bytes) (t : Time) :
  key <> [] ->
  let counter := Unix t / 30 in
  let msg := be_bytes 8 counter in
  let mac := Hmac.sha1 key msg in
  let offset := Z.to_nat (Z.land (last mac 0) 15) in
  let binCode :=
    Z.land (nth offset mac 0) 127 * 2 ^ 24 + nth (offset + 1) mac 0 * 2 ^ 16
    + nth (offset + 2) mac 0 * 2 ^ 8 + nth (offset + 3) mac 0 in
  (List.length msg = 8%nat /\ be_value msg = counter mod 2 ^ 64)
  /\ (offset + 4 <= List.length mac)%nat
  /\ 0 <= binCode < 2 ^ 31
  /\ (exists code,
         Totp.currentCode key t = Ok code
         /\ String.length code = 6%nat
         /\ forallb is_digit (list_ascii_of_string code) = true
         /\ decimal_value code = binCode mod 10 ^ 6)
  /\ (forall secret, Base32.decode secret = Ok key ->
         Totp.GenerateCode secret t = Totp.currentCode key t)
  /\ map (fun c => Hotp.computeCode rfc_key c 6) [0; 1; 2; 3; 4; 5; 6; 7; 8; 9]
     = [Ok "755224"; Ok "287082"; Ok "359152"; Ok "969429"; Ok "338314";
        Ok "254676"; Ok "287922"; Ok "162583"; Ok "399871"; Ok "520489"].
Proof.
  intros Hkey counter msg mac offset binCode.
  assert (Hlen : List.length mac = 20%nat) by apply hmac_length.
  assert (Hrange : Forall is_byte mac) by apply hmac_range.
  assert (Hbin : Hotp.truncate mac = binCode) by (apply truncate_bytes; assumption).
  split; [split|split; [|split; [|split; [|split]]]].
  - apply be_bytes_length.
  - unfold msg. rewrite be_value_be_bytes. reflexivity.
  - unfold offset. pose proof (low_nibble (last mac 0)). lia.
  - rewrite <- Hbin. apply truncate_range; assumption.
  - exists (Hotp.decimal 6 (binCode mod 10 ^ 6)).
    split; [|split; [|split]].
    + unfold Totp.currentCode, Totp.period.
      rewrite computeCode_nonempty by assumption.
      fold counter. fold msg. fold mac. rewrite Hbin. reflexivity.
    + apply decimal_length.
    + apply decimal_digits.
    + rewrite decimal_value_decimal. change (Z.of_nat 6) with 6.
      apply Z.mod_mod. discriminate.
  - intros secret Hdec. unfold Totp.GenerateCode. now rewrite Hdec.
  - vm_compute. reflexivity.
Qed.

Lemma currentCode_rfc4226_witness :
  rfc_key <> []
  /\ exists code, Totp.currentCode rfc_key 59 = Ok code
                  /\ String.length code = 6%nat.
Proof.
  assert (H : rfc_key <> []) by discriminate.
  split; [exact H|].
  destruct (currentCode_rfc4226 rfc_key 59 H)
    as (_ & _ & _ & (code & Hc & Hl & _) & _).
  exists code. split; assumption.
Defined.

(** Go's [%] on a time before the epoch: the remainder is negative and the
    seconds remaining exceed 30. *)
Lemma secondsRemaining_before_epoch :
  secondsRemaining (-1) = 31 /\ ~ (1 <= secondsRemaining (-1) <= 30).
Proof. split; [reflexivity | vm_compute; intros [_ H]; apply H; reflexivity]. Qed.

(** C2 (amended). For a time [t] at or after the Unix epoch,
    [secondsRemaining t] is [30 - (Unix t mod 30)] and lies in [1, 30]; on a
    step boundary it is 30, and the current code is the one of the counter
    [Unix t / 30], whose window starts at [t]. *)
Theorem secondsRemaining_window (t : Time) :
  0 <= Unix t ->
  secondsRemaining t = 30 - Unix t mod 30
  /\ 1 <= secondsRemaining t <= 30
  /\ (Unix t mod 30 = 0 ->
      secondsRemaining t = 30
      /\ 30 * (Unix t / 30) = Unix t
      /\ forall key,
           Totp.currentCode key t = Hotp.computeCode key (Unix t / 30) 6).
Proof.
  intros Ht. unfold secondsRemaining.
  rewrite Z.rem_mod_nonneg by lia.
  pose proof (Z.mod_pos_bound (Unix t) 30 eq_refl) as Hm.
  split; [reflexivity|]. split; [lia|].
  intros Hz. split; [lia|]. split.
  - pose proof (Z.div_mod (Unix t) 30). lia.
  - intros key. reflexivity.
Qed.

Lemma secondsRemaining_window_witness :
  0 <= Unix 60 /\ secondsRemaining 60 = 30 /\ secondsRemaining 59 = 1.
Proof.
  assert (H60 : 0 <= Unix 60) by (unfold Unix; lia).
  assert (H59 : 0 <= Unix 59) by (unfold Unix; lia).
  split; [exact H60|]. split.
  - destruct (secondsRemaining_window 60 H60) as (_ & _ & Hb).
    exact (proj1 (Hb eq_refl)).
  - destruct (secondsRemaining_window 59 H59) as (He & _). exact He.
Defined.

Lemma Add_seconds (t : Time) (n : Z) : Unix (Add t (n * Second)) = Unix t + n.
Proof. unfold Add, Unix, Second. rewrite Z.div_mul by discriminate. reflexivity. Qed.

(** Before the epoch the time reached by [getCode] for the next code lies
    two windows after the one of [t]: at [t = -1] it is the code of counter
    1, not of counter [floor(-1/30) + 1 = 0]. *)
Lemma nextCode_before_epoch :
  exists key,
    Base32.decode (Secret acme) = Ok key
    /\ nextCode (Secret acme) (-1) = Ok "996554"
    /\ Hotp.computeCode key (Unix (-1) / 30 + 1) 6 = Ok "282760"
    /\ nextCode (Secret acme) (-1)
       <> Hotp.computeCode key (Unix (-1) / 30 + 1) 6.
Proof.
  exists [72; 101; 108; 108; 111; 33; 222; 173; 190; 239].
  split; [vm_compute; reflexivity|].
  split; [vm_compute; reflexivity|].
  split; [vm_compute; reflexivity|].
  vm_compute. discriminate.
Qed.

(** C3 (amended). For a secret and a time [t] at or after the Unix epoch,
    the next code computed by [getCode] is the current code at
    [t + secondsRemaining t], that is the code of counter
    [floor(Unix t / 30) + 1]. *)
Theorem nextCode_following_step (secret : string) (t : Time) :
  0 <= Unix t ->
  nextCode secret t = Totp.GenerateCode secret (t + secondsRemaining t)
  /\ Unix (t + secondsRemaining t) / 30 = Unix t / 30 + 1
  /\ forall key, Base32.decode secret = Ok key ->
       nextCode secret t = Totp.currentCode key (t + secondsRemaining t)
       /\ nextCode secret t = Hotp.computeCode key (Unix t / 30 + 1) 6.
Proof.
  intros Ht.
  assert (Hnext : nextTime t = t + secondsRemaining t).
  { unfold nextTime. pose proof (Add_seconds t (secondsRemaining t)) as H.
    unfold Unix in H. exact H. }
  assert (Hstep : Unix (t + secondsRemaining t) / 30 = Unix t / 30 + 1).
  { unfold secondsRemaining, Unix in *. rewrite Z.rem_mod_nonneg by lia.
    pose proof (Z.div_mod t 30).
    replace (t + (30 - t mod 30)) with ((t / 30 + 1) * 30) by lia.
    apply Z.div_mul. discriminate. }
  split; [|split]; auto.
  - unfold nextCode. now rewrite Hnext.
  - intros key Hdec. unfold nextCode, Totp.GenerateCode. rewrite Hdec, Hnext.
    split; [reflexivity|].
    unfold Totp.currentCode, Totp.period. now rewrite Hstep.
Qed.

Lemma nextCode_following_step_witness :
  0 <= Unix 59
  /\ nextCode (Secret acme) 59 = Totp.GenerateCode (Secret acme) 60.
Proof.
  assert (H : 0 <= Unix 59) by (unfold Unix; lia).
  split; [exact H|].
  exact (proj1 (nextCode_following_step (Secret acme) 59 H)).
Defined.

(* ================================================================== *)
(** * The store operations *)
(* ================================================================== *)

Lemma eqb_empty_false s : s <> "" -> (s =? "")%string = false.
Proof. intros H. now apply String.eqb_neq. Qed.

Lemma createEntry_with_fresh name secret data w :
  write_fault w = NoFault ->
  has_name name (Entries data) = false ->
  createEntry_with name secret data w
  = Done tt
      (to_stdout "Entry created successfully!"
         (set_disk
            (Some (Document
               {| Entries := Entries data ++ [{| Name := name; Secret := secret |}] |}))
            w)).
Proof.
  intros Hfault Hfresh. unfold createEntry_with. rewrite Hfresh.
  unfold saveData, bind, WriteFile. rewrite Hfault. reflexivity.
Qed.

(** C4. When the name is already stored, [createEntry] prints its refusal
    and leaves the storage file as it was; the handler of POST /totps
    nevertheless answers with status 200 and the text of a successful
    creation. *)
Theorem createEntryHTTP_duplicate (w : World) (d : TOTPData) (name s2 : string) :
  loadData w = Done d w ->
  has_name name (Entries d) = true ->
  name <> "" -> s2 <> "" ->
  let refused := to_stdout "Entry with this name already exists." w in
  createEntry name s2 w = Done tt refused
  /\ disk refused = disk w
  /\ handleTOTPRequests POST (Some {| Name := name; Secret := s2 |}) w
     = Done {| status := 200;
               body := Text ("TOTP entry '" ++ name ++ "' created successfully."
                             ++ String "010"%char "")%string |}
            refused.
Proof.
  intros Hload Hdup Hname Hsecret refused.
  assert (Hcreate : createEntry name s2 w = Done tt refused).
  { unfold createEntry, bind. rewrite Hload.
    unfold createEntry_with. rewrite Hdup. reflexivity. }
  split; [exact Hcreate|]. split; [reflexivity|].
  unfold handleTOTPRequests, createEntryHTTP. cbn [Name Secret].
  rewrite (eqb_empty_false name Hname), (eqb_empty_false s2 Hsecret).
  cbn [orb]. unfold bind. rewrite Hcreate. reflexivity.
Qed.

Lemma createEntryHTTP_duplicate_witness :
  let w := set_disk (Some (Document {| Entries := [acme] |})) (world0 59) in
  exists r w',
    handleTOTPRequests POST (Some {| Name := "acme"; Secret := "GEZDGNBV" |}) w
    = Done r w'
    /\ status r = 200 /\ disk w' = disk w.
Proof.
  intros w.
  destruct (createEntryHTTP_duplicate w {| Entries := [acme] |} "acme" "GEZDGNBV")
    as (_ & Hdisk & Hpost);
    [reflexivity | reflexivity | discriminate | discriminate |].
  eexists. eexists. split; [exact Hpost|]. split; [reflexivity | exact Hdisk].
Defined.

(** C5. On a store that loads, [removeEntry] and the handler of DELETE
    report that nothing was found and leave the storage file untouched when
    no entry bears the name.  Otherwise, the device accepting the write,
    they store the entries with another name, in their order: the name is
    gone, every other entry is kept, and with unique names exactly one entry
    has been taken out of the sequence. *)
Theorem removeEntry_spec (w : World) (d : TOTPData) (name : string) :
  loadData w = Done d w ->
  (has_name name (Entries d) = false ->
     removeEntry name w
     = Done tt (to_stdout ("No entry found with the name: " ++ name)%string w)
     /\ removeEntryHTTP name w
        = Done (httpError "No entry found with that name." StatusNotFound) w)
  /\ (has_name name (Entries d) = true -> write_fault w = NoFault ->
      let rest := others name (Entries d) in
      let w' := set_disk (Some (Document {| Entries := rest |})) w in
      removeEntry name w
      = Done tt (to_stdout ("Entry '" ++ name ++ "' has been removed.")%string w')
      /\ removeEntryHTTP name w
         = Done (written (Text ("Entry '" ++ name ++ "' has been removed."
                                 ++ String "010"%char "")%string)) w'
      /\ loadData w' = Done {| Entries := rest |} w'
      /\ find_entry name rest = None
      /\ (forall entry, In entry (Entries d) -> Name entry <> name ->
            In entry rest)
      /\ (NoDup (names (Entries d)) ->
          exists before entry after,
            Entries d = before ++ entry :: after /\ Name entry = name
            /\ rest = before ++ after)).
Proof.
  intros Hload. split.
  - intros Habsent.
    unfold removeEntry, removeEntryHTTP, bind. rewrite Hload.
    rewrite remove_loop_spec, Habsent. cbn. split; reflexivity.
  - intros Hpresent Hfault rest w'.
    split; [|split; [|split; [|split; [|split]]]].
    + unfold removeEntry, bind. rewrite Hload.
      rewrite remove_loop_spec, Hpresent. cbn [orb negb app].
      unfold saveData, bind, WriteFile. rewrite Hfault. reflexivity.
    + unfold removeEntryHTTP, bind. rewrite Hload.
      rewrite remove_loop_spec, Hpresent. cbn [orb negb app].
      unfold saveData, bind, WriteFile. rewrite Hfault. reflexivity.
    + reflexivity.
    + apply find_entry_none, others_has_name.
    + intros entry Hin Hne. unfold rest, others. apply filter_In.
      split; [assumption|]. now apply negb_true_iff, String.eqb_neq.
    + intros Hnd. apply others_unique; [assumption|].
      now apply has_name_In.
Qed.

Lemma removeEntry_spec_witness :
  let other := {| Name := "mail"; Secret := "GEZDGNBV" |} in
  let w := set_disk (Some (Document {| Entries := [acme; other] |})) (world0 59) in
  stored (final (removeEntry "acme" w)) = [other]
  /\ stored (final (removeEntry "bank" w)) = [acme; other].
Proof.
  intros other w.
  destruct (removeEntry_spec w {| Entries := [acme; other] |} "acme" eq_refl)
    as (_ & Hfound).
  destruct (removeEntry_spec w {| Entries := [acme; other] |} "bank" eq_refl)
    as (Habsent & _).
  destruct (Hfound eq_refl eq_refl) as (Hrun & _).
  destruct (Habsent eq_refl) as (Hrun' & _).
  rewrite Hrun, Hrun'. split; reflexivity.
Defined.



(** A storage file that does not parse: [loadData] writes a line on standard
    error and the process ends; nothing is returned to the caller. *)
Lemma loadData_malformed_exits :
  let w := set_disk (Some Malformed) (world0 0) in
  loadData w = Exit (to_stderr "Error parsing data file" w)
  /\ ~ (exists r w', loadData w = Done r w').
Proof.
  intros w. split; [reflexivity|].
  intros (r & w' & H). discriminate H.
Qed.

(** C7 (amended). [loadData] returns the empty store, touching nothing, when
    the storage file is absent, and the stored collection when the file
    parses; when the file exists and cannot be opened, read or parsed it
    logs a line on standard error and ends the process, returning nothing to
    its caller. *)
Theorem loadData_spec (w : World) :
  match disk w with
  | None => loadData w = Done {| Entries := [] |} w
  | Some (Document d) => loadData w = Done d w
  | Some _ =>
      exists line, loadData w = Exit (to_stderr line w)
                   /\ forall r w', loadData w <> Done r w'
  end.
Proof.
  unfold loadData, logFatalf.
  destruct (disk w) as [[d| | |]|]; try reflexivity;
    eexists; (split; [reflexivity | intros r w'; discriminate]).
Qed.



(* ================================================================== *)
(** * Unique names *)
(* ================================================================== *)

Section Invariant.

Variable I : World -> Prop.

Lemma keeps_ret {A} (a : A) (Q : A -> Prop) : Q a -> keeps I (ret a) Q.
Proof. intros Ha w Hw. cbn. auto. Qed.

Lemma keeps_bind {A B} (m : M A) (k : A -> M B) (Q : A -> Prop) (R : B -> Prop) :
  keeps I m Q -> (forall a, Q a -> keeps I (k a) R) -> keeps I (bind m k) R.
Proof.
  intros Hm Hk w Hw. unfold bind. specialize (Hm w Hw).
  destruct (m w) as [a w'|w']; [|assumption].
  destruct Hm as [Hw' Ha]. exact (Hk a Ha w' Hw').
Qed.

End Invariant.

Lemma keeps_Println s : keeps unique_names (Println s) anything.
Proof. intros w Hw. cbn. split; [exact Hw | exact I]. Qed.

Lemma keeps_logPrintf s : keeps unique_names (logPrintf s) anything.
Proof. intros w Hw. cbn. split; [exact Hw | exact I]. Qed.

Lemma keeps_logFatalf {A} s (Q : A -> Prop) : keeps unique_names (logFatalf s) Q.
Proof. intros w Hw. exact Hw. Qed.

Lemma keeps_Now : keeps unique_names Now anything.
Proof. intros w Hw. cbn. split; [exact Hw | exact I]. Qed.

Lemma keeps_clipboard code : keeps unique_names (copy_to_clipboard code) anything.
Proof.
  intros w Hw. unfold copy_to_clipboard.
  destruct (clip_nonnil w); cbn; split; solve [exact Hw | exact I].
Qed.

(** A store that loads under the invariant has unique names. *)
Lemma keeps_loadData :
  keeps unique_names loadData (fun data => NoDup (names (Entries data))).
Proof.
  intros w Hw. unfold loadData, logFatalf.
  unfold unique_names, stored in Hw |- *.
  destruct (disk w) as [[d| | |]|] eqn:E; cbn; rewrite ?E;
    try split; auto using NoDup_nil.
Qed.

Lemma keeps_saveData data :
  NoDup (names (Entries data)) -> keeps unique_names (saveData data) anything.
Proof.
  intros Hdata w Hw. unfold saveData, bind, WriteFile, unique_names, stored in *.
  destruct (write_fault w); cbn.
  - split; [exact Hdata | exact I].
  - exact Hw.
  - constructor.
Qed.

Ltac keeps_step :=
  lazymatch goal with
  | |- keeps _ (bind (Println _) _) _ =>
      eapply keeps_bind; [apply keeps_Println | intros ? _]
  | |- keeps _ (bind (logPrintf _) _) _ =>
      eapply keeps_bind; [apply keeps_logPrintf | intros ? _]
  | |- keeps _ (bind Now _) _ =>
      eapply keeps_bind; [apply keeps_Now | intros ? _]
  | |- keeps _ (Println _) _ => apply keeps_Println
  | |- keeps _ (logPrintf _) _ => apply keeps_logPrintf
  | |- keeps _ (logFatalf _) _ => apply keeps_logFatalf
  | |- keeps _ (copy_to_clipboard _) _ => apply keeps_clipboard
  end.

Lemma keeps_createEntry name secret :
  keeps unique_names (createEntry name secret) anything.
Proof.
  unfold createEntry. eapply keeps_bind; [apply keeps_loadData|].
  intros data Hdata. unfold createEntry_with.
  destruct (has_name name (Entries data)) eqn:E; [keeps_step|].
  eapply keeps_bind; [|intros ? _; keeps_step].
  apply keeps_saveData. cbn [Entries].
  apply append_NoDup; [assumption | now apply has_name_false].
Qed.

Lemma keeps_removeEntry name : keeps unique_names (removeEntry name) anything.
Proof.
  unfold removeEntry. eapply keeps_bind; [apply keeps_loadData|].
  intros data Hdata. rewrite remove_loop_spec. cbn [orb app].
  destruct (has_name name (Entries data)); cbn [negb]; [|keeps_step].
  eapply keeps_bind; [|intros ? _; keeps_step].
  apply keeps_saveData. cbn [Entries]. now apply others_NoDup.
Qed.

Lemma keeps_getCode name : keeps unique_names (getCode name) anything.
Proof.
  unfold getCode. eapply keeps_bind; [apply keeps_loadData|].
  intros data _. destruct (find_entry name (Entries data)); [|keeps_step].
  keeps_step. destruct (Totp.GenerateCode _ _); [|keeps_step].
  keeps_step. destruct (nextCode _ _); repeat keeps_step.
Qed.

Lemma keeps_list_loop entries : keeps unique_names (list_loop entries) anything.
Proof.
  induction entries as [|e entries IH]; cbn [list_loop].
  - now apply keeps_ret.
  - keeps_step. destruct (Totp.GenerateCode _ _); repeat keeps_step; exact IH.
Qed.

Lemma keeps_listEntries : keeps unique_names listEntries anything.
Proof.
  unfold listEntries. eapply keeps_bind; [apply keeps_loadData|].
  intros data _. destruct (Entries data) as [|e entries]; [keeps_step|].
  keeps_step. apply keeps_list_loop.
Qed.

Lemma keeps_handleTOTPRequests m decoded :
  keeps unique_names (handleTOTPRequests m decoded) anything.
Proof.
  destruct m; cbn [handleTOTPRequests]; try (now apply keeps_ret).
  - unfold listEntriesHTTP. eapply keeps_bind; [apply keeps_loadData|].
    intros data _. now apply keeps_ret.
  - unfold createEntryHTTP. destruct decoded as [entry|]; [|now apply keeps_ret].
    destruct (_ || _); [now apply keeps_ret|].
    eapply keeps_bind; [apply keeps_createEntry|].
    intros ? _. now apply keeps_ret.
Qed.

Lemma keeps_handleTOTPRequestsByID m name :
  keeps unique_names (handleTOTPRequestsByID m name) anything.
Proof.
  destruct m; cbn [handleTOTPRequestsByID]; try (now apply keeps_ret).
  - unfold getCodeHTTP. eapply keeps_bind; [apply keeps_loadData|].
    intros data _.
    destruct (find_entry name (Entries data)); [|now apply keeps_ret].
    keeps_step. destruct (Totp.GenerateCode _ _); [|now apply keeps_ret].
    keeps_step. now apply keeps_ret.
  - unfold removeEntryHTTP. eapply keeps_bind; [apply keeps_loadData|].
    intros data Hdata. rewrite remove_loop_spec. cbn [orb app].
    destruct (has_name name (Entries data)); cbn [negb]; [|now apply keeps_ret].
    eapply keeps_bind; [|intros ? _; now apply keeps_ret].
    apply keeps_saveData. cbn [Entries]. now apply others_NoDup.
Qed.

Lemma keeps_final {A} (m : M A) (Q : A -> Prop) w :
  keeps unique_names m Q -> unique_names w -> unique_names (final (m w)).
Proof.
  intros Hm Hw. specialize (Hm w Hw).
  destruct (m w); cbn; [destruct Hm|]; assumption.
Qed.



(* ================================================================== *)
(** * Two calls at the same time *)
(* ================================================================== *)

(** The two steps of a call, taken without interruption, are
    [createEntry]. *)
Lemma call_steps_createEntry name secret w :
  let (c, w1) := call_step (Pending name secret) w in
  let (c', w2) := call_step c w1 in
  w2 = final (createEntry name secret w)
  /\ (c' = Returned <-> createEntry name secret w = Done tt w2).
Proof.
  unfold createEntry, bind. cbn [call_step].
  destruct (loadData w) as [data w1|w1]; cbn [call_step final].
  - destruct (createEntry_with name secret data w1) as [[] w2|w2]; cbn [final].
    + split; [reflexivity | split; reflexivity].
    + split; [reflexivity | split; discriminate].
  - split; [reflexivity | split; discriminate].
Qed.


(** Runs a schedule: [Hload] and [Hreload] answer the loads, [Hfirst] the
    first save, [Hfault] and [Hfresh] the side conditions of the second. *)
Ltac run_calls Hload Hfirst Hreload Hfault Hfresh :=
  repeat (cbn [interleave call_step];
          first [ rewrite Hload | rewrite Hfirst | rewrite Hreload
                | rewrite createEntry_with_fresh
                    by (apply Hfault || exact Hfresh || reflexivity) ]).




(* ================================================================== *)
(** * Operations that only read *)
(* ================================================================== *)

Section Stable.

(** An invariant that only looks at the storage file. *)
Variable I : World -> Prop.
Hypothesis I_disk : forall w w', disk w' = disk w -> I w -> I w'.

Lemma stable_Println s : keeps I (Println s) anything.
Proof. intros w Hw. cbn. split; [now apply (I_disk w) | exact Logic.I]. Qed.

Lemma stable_Print s : keeps I (Print s) anything.
Proof. intros w Hw. cbn. split; [now apply (I_disk w) | exact Logic.I]. Qed.

Lemma stable_logPrintf s : keeps I (logPrintf s) anything.
Proof. intros w Hw. cbn. split; [now apply (I_disk w) | exact Logic.I]. Qed.

Lemma stable_logFatalf {A} s (Q : A -> Prop) : keeps I (logFatalf s) Q.
Proof. intros w Hw. cbn. now apply (I_disk w). Qed.

Lemma stable_Now : keeps I Now anything.
Proof. intros w Hw. cbn. split; [now apply (I_disk w) | exact Logic.I]. Qed.

Lemma stable_clipboard code : keeps I (copy_to_clipboard code) anything.
Proof.
  intros w Hw. unfold copy_to_clipboard.
  destruct (clip_nonnil w); cbn; (split; [now apply (I_disk w) | exact Logic.I]).
Qed.

Lemma stable_loadData : keeps I loadData anything.
Proof.
  intros w Hw. unfold loadData, logFatalf.
  destruct (disk w) as [[d| | |]|]; cbn;
    try (split; [assumption | exact Logic.I]); now apply (I_disk w).
Qed.

Lemma stable_getCode name : keeps I (getCode name) anything.
Proof.
  unfold getCode. eapply keeps_bind; [apply stable_loadData|].
  intros data _.
  destruct (find_entry name (Entries data)) as [entry|]; [|apply stable_Println].
  eapply keeps_bind; [apply stable_Now|]. intros t _.
  destruct (Totp.GenerateCode _ _); [|apply stable_logFatalf].
  eapply keeps_bind; [apply stable_Println|]. intros _ _.
  destruct (nextCode _ _); [|apply stable_logFatalf].
  eapply keeps_bind; [apply stable_Println|]. intros _ _.
  apply stable_clipboard.
Qed.

Lemma stable_list_loop entries : keeps I (list_loop entries) anything.
Proof.
  induction entries as [|e entries IH]; cbn [list_loop].
  - now apply keeps_ret.
  - eapply keeps_bind; [apply stable_Now|]. intros t _.
    destruct (Totp.GenerateCode _ _).
    + eapply keeps_bind; [apply stable_Now|]. intros t' _.
      eapply keeps_bind; [apply stable_Println|]. intros _ _. exact IH.
    + eapply keeps_bind; [apply stable_logPrintf|]. intros _ _. exact IH.
Qed.

Lemma stable_listEntries : keeps I listEntries anything.
Proof.
  unfold listEntries. eapply keeps_bind; [apply stable_loadData|].
  intros data _. destruct (Entries data) as [|e entries]; [apply stable_Println|].
  eapply keeps_bind; [apply stable_Println|]. intros _ _.
  apply stable_list_loop.
Qed.

Lemma stable_listEntriesHTTP : keeps I listEntriesHTTP anything.
Proof.
  unfold listEntriesHTTP. eapply keeps_bind; [apply stable_loadData|].
  intros data _. now apply keeps_ret.
Qed.

Lemma stable_getCodeHTTP name : keeps I (getCodeHTTP name) anything.
Proof.
  unfold getCodeHTTP. eapply keeps_bind; [apply stable_loadData|].
  intros data _.
  destruct (find_entry name (Entries data)) as [entry|]; [|now apply keeps_ret].
  eapply keeps_bind; [apply stable_Now|]. intros t _.
  destruct (Totp.GenerateCode _ _); [|now apply keeps_ret].
  eapply keeps_bind; [apply stable_Now|]. intros t' _. now apply keeps_ret.
Qed.

Lemma stable_final {A} (m : M A) (Q : A -> Prop) w :
  keeps I m Q -> I w -> I (final (m w)).
Proof.
  intros Hm Hw. specialize (Hm w Hw).
  destruct (m w); cbn; [destruct Hm|]; assumption.
Qed.

End Stable.

Lemma same_disk_stable (f : option File) :
  forall w w', disk w' = disk w -> disk w = f -> disk w' = f.
Proof. intros w w' H1 H2. congruence. Qed.

Lemma getCode_disk name w : disk (final (getCode name w)) = disk w.
Proof.
  pose proof (same_disk_stable (disk w)) as Hst.
  exact (stable_final _ _ _ w (stable_getCode _ Hst name) eq_refl).
Qed.

Lemma listEntries_disk w : disk (final (listEntries w)) = disk w.
Proof.
  pose proof (same_disk_stable (disk w)) as Hst.
  exact (stable_final _ _ _ w (stable_listEntries _ Hst) eq_refl).
Qed.

(** X1. [getCode], [listEntries] and the handlers of GET /totps and
    GET /totps/{name} never change the storage file, whatever it holds and
    however they end. *)
Theorem reads_leave_the_file (w : World) (name : string) :
  disk (final (getCode name w)) = disk w
  /\ disk (final (listEntries w)) = disk w
  /\ disk (final (handleTOTPRequests GET None w)) = disk w
  /\ disk (final (handleTOTPRequestsByID GET name w)) = disk w.
Proof.
  pose proof (same_disk_stable (disk w)) as Hst.
  split; [apply getCode_disk|]. split; [apply listEntries_disk|]. split.
  - exact (stable_final _ _ _ w (stable_listEntriesHTTP _ Hst) eq_refl).
  - exact (stable_final _ _ _ w (stable_getCodeHTTP _ Hst name) eq_refl).
Qed.

(* ================================================================== *)
(** * Failures of the storage file *)
(* ================================================================== *)

Lemma loadData_unusable w :
  unusable w -> exists line, loadData w = Exit (to_stderr line w).
Proof.
  intros (f & Hf & Hnot). unfold loadData, logFatalf. rewrite Hf.
  destruct f as [d| | |]; [destruct (Hnot d eq_refl)| | |]; eexists; reflexivity.
Qed.

Lemma bind_exit {A B} (m : M A) (k : A -> M B) w w' :
  m w = Exit w' -> bind m k w = Exit w'.
Proof. intros H. unfold bind. now rewrite H. Qed.

(** X2. When the storage file exists and cannot be opened, read or parsed,
    every command and every handler that consults the store ends the
    process, after one line on standard error and nothing else: the two
    commands and the two handlers that only read as well as those that
    write. *)
Theorem unusable_file_ends_process (w : World) (name secret : string) :
  unusable w -> name <> "" -> secret <> "" ->
  exists line,
    createEntry name secret w = Exit (to_stderr line w)
    /\ removeEntry name w = Exit (to_stderr line w)
    /\ getCode name w = Exit (to_stderr line w)
    /\ listEntries w = Exit (to_stderr line w)
    /\ handleTOTPRequests GET None w = Exit (to_stderr line w)
    /\ handleTOTPRequests POST (Some {| Name := name; Secret := secret |}) w
       = Exit (to_stderr line w)
    /\ handleTOTPRequestsByID GET name w = Exit (to_stderr line w)
    /\ handleTOTPRequestsByID DELETE name w = Exit (to_stderr line w).
Proof.
  intros Hbad Hname Hsecret.
  destruct (loadData_unusable w Hbad) as [line Hload].
  exists line.
  assert (Hcreate : createEntry name secret w = Exit (to_stderr line w))
    by (apply bind_exit; exact Hload).
  split; [exact Hcreate|].
  split; [apply bind_exit; exact Hload|].
  split; [apply bind_exit; exact Hload|].
  split; [apply bind_exit; exact Hload|].
  split; [apply bind_exit; exact Hload|].
  split; [|split; apply bind_exit; exact Hload].
  unfold handleTOTPRequests, createEntryHTTP. cbn [Name Secret].
  rewrite (eqb_empty_false name Hname), (eqb_empty_false secret Hsecret).
  cbn [orb]. apply bind_exit. exact Hcreate.
Qed.

Lemma unusable_file_ends_process_witness :
  let w := set_disk (Some Malformed) (world0 0) in
  unusable w
  /\ exists line, handleTOTPRequestsByID GET "acme" w = Exit (to_stderr line w).
Proof.
  intros w.
  assert (H : unusable w).
  { exists Malformed. split; [reflexivity | intros d; discriminate]. }
  split; [exact H|].
  assert (Hn : "acme" <> "") by discriminate.
  assert (Hs : "GEZDGNBV" <> "") by discriminate.
  destruct (unusable_file_ends_process w "acme" "GEZDGNBV" H Hn Hs)
    as (line & _ & _ & _ & _ & _ & _ & Hget & _).
  exists line. exact Hget.
Defined.

(** X3. A POST on /totps whose body does not decode, or lacks the name or
    the secret, is answered 400 before the store is consulted: nothing is
    read, written or printed, even when the storage file is unusable. *)
Theorem invalid_post_rejected (w : World) (decoded : option TOTPEntry) :
  (decoded = None
   \/ exists entry, decoded = Some entry
                    /\ (Name entry = "" \/ Secret entry = "")) ->
  handleTOTPRequests POST decoded w
  = Done (httpError "Invalid input" StatusBadRequest) w.
Proof.
  intros [Hnone|(entry & Hsome & Hempty)]; subst decoded;
    unfold handleTOTPRequests, createEntryHTTP; [reflexivity|].
  destruct Hempty as [H|H]; rewrite H; cbn [String.eqb orb];
    [reflexivity | now rewrite orb_true_r].
Qed.

Lemma invalid_post_rejected_witness :
  let w := set_disk (Some Malformed) (world0 0) in
  exists r, handleTOTPRequests POST (Some {| Name := "acme"; Secret := "" |}) w
            = Done r w
            /\ status r = 400.
Proof.
  intros w. eexists. split.
  - apply invalid_post_rejected. right.
    exists {| Name := "acme"; Secret := "" |}.
    split; [reflexivity | right; reflexivity].
  - reflexivity.
Defined.

(** X4. The handlers answer with few statuses: on /totps with 200, 400 or
    405, on /totps/{name} with 200, 404, 405 or 500; 405 is the answer to
    every method they do not serve and leaves the world as it is. *)
Theorem handler_statuses (m : Method) (decoded : option TOTPEntry)
    (name : string) (w : World) :
  (forall r w', handleTOTPRequests m decoded w = Done r w' ->
     In (status r) [200; 400; 405])
  /\ (forall r w', handleTOTPRequestsByID m name w = Done r w' ->
        In (status r) [200; 404; 405; 500])
  /\ (m <> GET -> m <> POST ->
      handleTOTPRequests m decoded w
      = Done (httpError "Method not allowed" StatusMethodNotAllowed) w)
  /\ (m <> GET -> m <> DELETE ->
      handleTOTPRequestsByID m name w
      = Done (httpError "Method not allowed" StatusMethodNotAllowed) w).
Proof.
  split; [|split; [|split]].
  - intros r w' H. destruct m; cbn [handleTOTPRequests] in H.
    + unfold listEntriesHTTP, bind in H.
      destruct (loadData w); inversion H; subst; cbn; auto.
    + unfold createEntryHTTP in H. destruct decoded as [entry|].
      * destruct (_ || _).
        -- inversion H; subst; cbn; auto.
        -- unfold bind in H. destruct (createEntry _ _ w); inversion H; cbn; auto.
      * inversion H; subst; cbn; auto.
    + inversion H; subst; cbn; auto.
    + inversion H; subst; cbn; auto.
  - intros r w' H. destruct m; cbn [handleTOTPRequestsByID] in H.
    + unfold getCodeHTTP, bind in H.
      destruct (loadData w) as [data w1|]; [|discriminate].
      destruct (find_entry name (Entries data)) as [entry|].
      * unfold Now in H.
        destruct (Totp.GenerateCode _ _); inversion H; subst; cbn; auto.
      * inversion H; subst; cbn; auto.
    + inversion H; subst; cbn; auto.
    + unfold removeEntryHTTP, bind in H.
      destruct (loadData w) as [data w1|]; [|discriminate].
      destruct (remove_loop _ _ _ _) as [found newEntries].
      destruct found; cbn [negb] in H.
      * destruct (saveData _ w1); inversion H; subst; cbn; auto.
      * inversion H; subst; cbn; auto.
    + inversion H; subst; cbn; auto.
  - intros H1 H2. destruct m; try congruence; reflexivity.
  - intros H1 H2. destruct m; try congruence; reflexivity.
Qed.

(** X5. GET /totps/{name} on a store that loads: 404, with the clock not
    read, exactly when no entry bears the name; otherwise the first entry
    with the name decides.  When its secret yields no code at the first
    reading of the clock the answer is 500; when it yields one the answer is
    200 with that code and the seconds remaining at a second, later reading
    of the clock. *)
Theorem getCodeHTTP_answers (w : World) (d : TOTPData) (name : string) :
  loadData w = Done d w ->
  let t1 := clock w (ticks w) in
  let t2 := clock w (S (ticks w)) in
  match find_entry name (Entries d) with
  | None =>
      has_name name (Entries d) = false
      /\ getCodeHTTP name w
         = Done (httpError "No entry found with that name." StatusNotFound) w
  | Some entry =>
      has_name name (Entries d) = true
      /\ Name entry = name
      /\ match Totp.GenerateCode (Secret entry) t1 with
         | Err _ =>
             getCodeHTTP name w
             = Done (httpError "Error generating TOTP code"
                       StatusInternalServerError) (tick w)
         | Ok code =>
             getCodeHTTP name w
             = Done {| status := 200;
                       body := JsonCode code (secondsRemaining t2) |}
                    (tick (tick w))
         end
  end.
Proof.
  intros Hload t1 t2. unfold getCodeHTTP, bind. rewrite Hload.
  destruct (find_entry name (Entries d)) as [entry|] eqn:Hfind.
  - unfold find_entry in Hfind. pose proof (find_some _ _ Hfind) as [Hin Heq].
    apply String.eqb_eq in Heq.
    split; [|split; [exact Heq|]].
    + apply has_name_In. unfold names. rewrite <- Heq. now apply in_map.
    + unfold Now. fold t1. destruct (Totp.GenerateCode (Secret entry) t1);
        reflexivity.
  - split; [|reflexivity].
    unfold find_entry in Hfind. unfold has_name.
    destruct (existsb _ (Entries d)) eqn:E; [|reflexivity].
    apply existsb_exists in E as (e & Hin & He).
    pose proof (find_none _ _ Hfind e Hin) as Hne. cbn in Hne. congruence.
Qed.

Lemma getCodeHTTP_answers_witness :
  let w := set_disk (Some (Document {| Entries := [acme] |})) (world0 59) in
  getCodeHTTP "acme" w
  = Done {| status := 200; body := JsonCode "996554" 1 |} (tick (tick w))
  /\ getCodeHTTP "mail" w
     = Done (httpError "No entry found with that name." StatusNotFound) w.
Proof.
  intros w.
  pose proof (getCodeHTTP_answers w {| Entries := [acme] |} "acme" eq_refl) as H1.
  pose proof (getCodeHTTP_answers w {| Entries := [acme] |} "mail" eq_refl) as H2.
  split; [exact (proj2 (proj2 H1)) | exact (proj2 H2)].
Defined.

(* ================================================================== *)
(** * The listing *)
(* ================================================================== *)

Lemma list_loop_lines entries : forall w,
  exists w',
    list_loop entries w = Done tt w'
    /\ lines_out w' = (lines_out w + List.length entries)%nat
    /\ (ticks w + List.length entries <= ticks w'
        <= ticks w + 2 * List.length entries)%nat.
Proof.
  unfold lines_out.
  induction entries as [|e entries IH]; intros w; cbn [list_loop].
  - exists w. cbn. repeat split; lia.
  - unfold bind at 1. unfold Now.
    destruct (Totp.GenerateCode (Secret e) (clock w (ticks w))) as [code|err].
    + unfold bind at 1. unfold bind at 1. unfold Println at 1.
      match goal with |- context [list_loop entries ?w1] =>
        destruct (IH w1) as (w' & Hrun & Hlines & Hticks) end.
      exists w'. split; [exact Hrun|].
      cbn [tick to_stdout stdout stderr ticks List.length] in *.
      rewrite length_app in Hlines. cbn [List.length] in Hlines. lia.
    + unfold bind at 1. unfold logPrintf at 1.
      match goal with |- context [list_loop entries ?w1] =>
        destruct (IH w1) as (w' & Hrun & Hlines & Hticks) end.
      exists w'. split; [exact Hrun|].
      cbn [tick to_stderr stdout stderr ticks List.length] in *.
      rewrite length_app in Hlines. cbn [List.length] in Hlines. lia.
Qed.



(* ================================================================== *)
(** * The window, for every time *)
(* ================================================================== *)


Lemma same_window (t k : Z) :
  0 <= t -> 0 <= k < secondsRemaining t -> Unix (t + k) / 30 = Unix t / 30.
Proof.
  unfold secondsRemaining, Unix. intros Ht Hk.
  rewrite Z.rem_mod_nonneg in Hk by lia.
  pose proof (Z.mod_pos_bound t 30 eq_refl) as Hm.
  pose proof (Z.div_mod t 30) as Hdm.
  replace (t + k) with ((t mod 30 + k) + (t / 30) * 30) by lia.
  rewrite Z.div_add by discriminate.
  rewrite Z.div_small by lia. lia.
Qed.

(** X8. From the epoch on the seconds remaining are truthful: during the
    seconds announced the code derived from a secret, or the failure to
    derive one, stays as it is, and each second that passes takes one off
    the seconds remaining. *)
Theorem code_holds_while_remaining (secret : string) (t k : Z) :
  0 <= Unix t ->
  0 <= k < secondsRemaining t ->
  Totp.GenerateCode secret (t + k) = Totp.GenerateCode secret t
  /\ secondsRemaining (t + k) = secondsRemaining t - k.
Proof.
  intros Ht Hk. split.
  - unfold Totp.GenerateCode.
    destruct (Base32.decode secret) as [key|e]; [|reflexivity].
    unfold Totp.currentCode, Totp.period.
    now rewrite (same_window t k Ht Hk).
  - unfold secondsRemaining, Unix in *.
    rewrite !Z.rem_mod_nonneg in * by lia.
    pose proof (Z.mod_pos_bound t 30 eq_refl) as Hm.
    assert (E : (t + k) mod 30 = t mod 30 + k).
    { pose proof (Z.div_mod t 30) as Hdm.
      replace (t + k) with ((t mod 30 + k) + (t / 30) * 30) by lia.
      rewrite Z.mod_add by discriminate. apply Z.mod_small. lia. }
    lia.
Qed.

Lemma code_holds_while_remaining_witness :
  Totp.GenerateCode (Secret acme) (31 + 28) = Totp.GenerateCode (Secret acme) 31
  /\ secondsRemaining (31 + 28) = secondsRemaining 31 - 28.
Proof.
  assert (H0 : 0 <= Unix 31) by (unfold Unix; lia).
  assert (Hk : 0 <= 28 < secondsRemaining 31) by (vm_compute; split; congruence).
  exact (code_holds_while_remaining (Secret acme) 31 28 H0 Hk).
Defined.

(* ================================================================== *)
(** * How the store operations compose *)
(* ================================================================== *)

Lemma others_fresh name entries :
  has_name name entries = false -> others name entries = entries.
Proof.
  intros H. unfold others. apply forallb_filter_id.
  unfold has_name in H. rewrite forallb_forall. intros e He.
  destruct (Name e =? name)%string eqn:E; [|reflexivity].
  assert (Hex : existsb (fun entry => (Name entry =? name)%string) entries = true)
    by (apply existsb_exists; eauto).
  congruence.
Qed.

Lemma others_app name l1 l2 :
  others name (l1 ++ l2) = others name l1 ++ others name l2.
Proof. unfold others. apply filter_app. Qed.

Lemma has_name_last name secret entries :
  has_name name (entries ++ [{| Name := name; Secret := secret |}]) = true.
Proof.
  apply has_name_In. rewrite names_app. apply in_or_app. right. now left.
Qed.

Lemma removeEntry_found name data w :
  loadData w = Done data w ->
  write_fault w = NoFault ->
  has_name name (Entries data) = true ->
  removeEntry name w
  = Done tt
      (to_stdout ("Entry '" ++ name ++ "' has been removed.")%string
         (set_disk (Some (Document {| Entries := others name (Entries data) |})) w)).
Proof.
  intros Hload Hfault Hfound. unfold removeEntry, bind. rewrite Hload.
  rewrite remove_loop_spec, Hfound. cbn [orb negb app].
  unfold saveData, bind, WriteFile. rewrite Hfault. reflexivity.
Qed.

Lemma removeEntry_absent name data w :
  loadData w = Done data w ->
  has_name name (Entries data) = false ->
  removeEntry name w
  = Done tt (to_stdout ("No entry found with the name: " ++ name)%string w).
Proof.
  intros Hload Habsent. unfold removeEntry, bind. rewrite Hload.
  rewrite remove_loop_spec, Habsent. reflexivity.
Qed.

Lemma createEntry_fresh name secret data w :
  loadData w = Done data w ->
  write_fault w = NoFault ->
  has_name name (Entries data) = false ->
  createEntry name secret w
  = Done tt
      (to_stdout "Entry created successfully!"
         (set_disk
            (Some (Document
               {| Entries := Entries data ++ [{| Name := name; Secret := secret |}] |}))
            w)).
Proof.
  intros Hload Hfault Hfresh. unfold createEntry, bind. rewrite Hload.
  now apply createEntry_with_fresh.
Qed.

Lemma createEntry_refused name secret data w :
  loadData w = Done data w ->
  has_name name (Entries data) = true ->
  createEntry name secret w
  = Done tt (to_stdout "Entry with this name already exists." w).
Proof.
  intros Hload Hdup. unfold createEntry, bind. rewrite Hload.
  unfold createEntry_with. now rewrite Hdup.
Qed.



Lemma find_entry_app_other other name secret entries :
  other <> name ->
  find_entry other (entries ++ [{| Name := name; Secret := secret |}])
  = find_entry other entries.
Proof.
  intros Hne. unfold find_entry.
  induction entries as [|e entries IH]; cbn.
  - apply String.eqb_neq in Hne. rewrite String.eqb_sym. now rewrite Hne.
  - destruct (Name e =? other)%string; [reflexivity | exact IH].
Qed.

Lemma find_entry_others other name entries :
  other <> name ->
  find_entry other (others name entries) = find_entry other entries.
Proof.
  intros Hne. unfold find_entry, others.
  induction entries as [|e entries IH]; cbn; [reflexivity|].
  destruct (Name e =? name)%string eqn:E1; cbn.
  - apply String.eqb_eq in E1.
    destruct (Name e =? other)%string eqn:E2; [|exact IH].
    apply String.eqb_eq in E2. congruence.
  - destruct (Name e =? other)%string; [reflexivity | exact IH].
Qed.



(** X11. A write that fails costs the whole store.  When [createEntry] (for
    a new name) or [removeEntry] (for a stored name) meets a write that
    fails after the file was opened, the process ends and the storage file
    is unusable: the entries that were stored are gone with the change.
    When the file cannot even be opened for writing, the process ends and
    the file is as before. *)
Theorem failed_write_loses_the_store (w : World) (d : TOTPData)
    (fresh present secret : string) :
  loadData w = Done d w ->
  has_name fresh (Entries d) = false ->
  has_name present (Entries d) = true ->
  (write_fault w = OpenFault ->
     createEntry fresh secret w = Exit (to_stderr "Error writing data file" w)
     /\ removeEntry present w = Exit (to_stderr "Error writing data file" w))
  /\ (write_fault w = WriteFault ->
      let broken := to_stderr "Error writing data file"
                      (set_disk (Some Malformed) w) in
      createEntry fresh secret w = Exit broken
      /\ removeEntry present w = Exit broken
      /\ unusable broken
      /\ stored broken = []).
Proof.
  intros Hload Hfresh Hpresent.
  split; intros Hfault.
  - split.
    + unfold createEntry, bind. rewrite Hload.
      unfold createEntry_with. rewrite Hfresh.
      unfold saveData, bind, WriteFile. rewrite Hfault. reflexivity.
    + unfold removeEntry, bind. rewrite Hload.
      rewrite remove_loop_spec, Hpresent. cbn [orb negb app].
      unfold saveData, bind, WriteFile. rewrite Hfault. reflexivity.
  - cbv zeta. split; [|split; [|split]].
    + unfold createEntry, bind. rewrite Hload.
      unfold createEntry_with. rewrite Hfresh.
      unfold saveData, bind, WriteFile. rewrite Hfault. reflexivity.
    + unfold removeEntry, bind. rewrite Hload.
      rewrite remove_loop_spec, Hpresent. cbn [orb negb app].
      unfold saveData, bind, WriteFile. rewrite Hfault. reflexivity.
    + exists Malformed. split; [reflexivity | intros d'; discriminate].
    + reflexivity.
Qed.

Lemma failed_write_loses_the_store_witness :
  let w := set_fault WriteFault
             (set_disk (Some (Document {| Entries := [acme] |})) (world0 0)) in
  stored w = [acme]
  /\ stored (final (createEntry "mail" "GEZDGNBV" w)) = [].
Proof.
  intros w. split; [reflexivity|].
  destruct (failed_write_loses_the_store w {| Entries := [acme] |}
              "mail" "acme" "GEZDGNBV" eq_refl eq_refl eq_refl) as (_ & H).
  destruct (H eq_refl) as (Hcreate & _). rewrite Hcreate. reflexivity.
Defined.

(* ================================================================== *)
(** * The command line and the paths *)
(* ================================================================== *)

Section MainFacts.

Variable guide : string.
Variable createEntryInteractive : M unit.
Variable startServer : M unit.

Let run := main guide createEntryInteractive startServer.

(** X12. Unless its first argument is [create], [remove] or [serve], the
    program never changes the storage file: the guide, the listing, the
    lookup of a name and the notes on usage all leave it as it is, however
    they end. *)
Theorem main_leaves_the_file (Args : list string) (w : World) :
  ~ In (nth 1 Args "") ["create"; "remove"; "serve"] ->
  disk (final (run Args w)) = disk w.
Proof.
  intros Hcmd. unfold run, main.
  destruct Args as [|prog [|command rest]]; [reflexivity | reflexivity |].
  cbn [nth] in Hcmd.
  assert (Hc : (command =? "create")%string = false)
    by (apply String.eqb_neq; intros ->; apply Hcmd; cbn; auto).
  assert (Hr : (command =? "remove")%string = false)
    by (apply String.eqb_neq; intros ->; apply Hcmd; cbn; auto).
  assert (Hs : (command =? "serve")%string = false)
    by (apply String.eqb_neq; intros ->; apply Hcmd; cbn; auto).
  rewrite Hc, Hr, Hs.
  destruct (command =? "list")%string.
  - apply listEntries_disk.
  - destruct rest; [apply getCode_disk | reflexivity].
Qed.

(** X13. How the arguments select a command.  A single argument that is not
    one of the words create, list, remove, serve is looked up as the name of
    an entry (the word help too); with further arguments it only earns the
    note on usage.  [create] takes exactly a name and a secret, [remove]
    exactly a name and otherwise prints its usage and removes nothing;
    without argument the guide is printed. *)
Theorem main_routes (prog name secret : string) (more : list string) (w : World) :
  (~ In name command_words ->
     run [prog; name] = getCode name
     /\ run (prog :: name :: secret :: more) w
        = Done tt (to_stdout "Usage: authinator [command] [arguments...]" w))
  /\ run [prog; "help"] = getCode "help"
  /\ run [prog; "create"; name; secret] = createEntry name secret
  /\ run [prog; "remove"; name] = removeEntry name
  /\ run [prog; "remove"] w
     = Done tt (to_stdout "Usage: authinator remove [name]" w)
  /\ run (prog :: "remove" :: name :: secret :: more) w
     = Done tt (to_stdout "Usage: authinator remove [name]" w)
  /\ run (prog :: "list" :: more) = listEntries
  /\ run [prog] w = Done tt (to_stdout guide w)
  /\ run [] w = Done tt (to_stdout guide w).
Proof.
  split; [|repeat (split; [reflexivity|]); reflexivity].
  intros Hname. unfold run, main, command_words in *.
  assert (Hc : (name =? "create")%string = false)
    by (apply String.eqb_neq; intros ->; apply Hname; cbn; auto).
  assert (Hl : (name =? "list")%string = false)
    by (apply String.eqb_neq; intros ->; apply Hname; cbn; auto).
  assert (Hr : (name =? "remove")%string = false)
    by (apply String.eqb_neq; intros ->; apply Hname; cbn; auto).
  assert (Hs : (name =? "serve")%string = false)
    by (apply String.eqb_neq; intros ->; apply Hname; cbn; auto).
  rewrite Hc, Hl, Hr, Hs. split; reflexivity.
Qed.

End MainFacts.

Lemma main_leaves_the_file_witness :
  let w := set_disk (Some (Document {| Entries := [acme] |})) (world0 59) in
  disk (final (main "guide" (ret tt) (ret tt) ["authinator"; "acme"] w)) = disk w.
Proof.
  intros w. apply main_leaves_the_file.
  cbn. intros [H|[H|[H|[]]]]; discriminate H.
Defined.

Lemma main_routes_witness :
  main "guide" (ret tt) (ret tt) ["authinator"; "acme"] = getCode "acme".
Proof.
  refine (proj1 (proj1 (main_routes "guide" (ret tt) (ret tt)
                          "authinator" "acme" "" [] (world0 0)) _)).
  cbn. intros [H|[H|[H|[H|[]]]]]; discriminate H.
Defined.

Lemma cut_prefix_app prefix s : cut_prefix prefix (prefix ++ s) = Some s.
Proof.
  induction prefix as [|a prefix IH]; cbn; [destruct s; reflexivity|].
  now rewrite Ascii.eqb_refl.
Qed.

Lemma TrimPrefix_app prefix s : TrimPrefix (prefix ++ s) prefix = s.
Proof. unfold TrimPrefix. now rewrite cut_prefix_app. Qed.

(** X14. Over HTTP an entry made by POST /totps is then found under the path
    /totps/{name}, DELETE on that path takes it out again and gives back the
    stored entries, and the path then answers 404.  (The store loads, the
    device accepts the writes, the name is new, name and secret are not
    empty.) *)
Theorem post_then_delete (w : World) (d : TOTPData) (name secret : string) :
  loadData w = Done d w ->
  write_fault w = NoFault ->
  has_name name (Entries d) = false ->
  name <> "" -> secret <> "" ->
  let entry := {| Name := name; Secret := secret |} in
  let path := ("/totps/" ++ name)%string in
  exists w1 w2 r1 r2,
    handleTOTPRequests POST (Some entry) w = Done r1 w1
    /\ status r1 = 200
    /\ stored w1 = Entries d ++ [entry]
    /\ find_entry name (stored w1) = Some entry
    /\ handleTOTPRequestsByPath DELETE path w1 = Done r2 w2
    /\ status r2 = 200
    /\ stored w2 = Entries d
    /\ handleTOTPRequestsByPath GET path w2
       = Done (httpError "No entry found with that name." StatusNotFound) w2
    /\ handleTOTPRequestsByPath DELETE path w2
       = Done (httpError "No entry found with that name." StatusNotFound) w2.
Proof.
  intros Hload Hfault Hfresh Hname Hsecret entry path.
  set (w1 := to_stdout "Entry created successfully!"
               (set_disk (Some (Document {| Entries := Entries d ++ [entry] |})) w)).
  set (w2 := set_disk (Some (Document {| Entries := Entries d |})) w1).
  assert (Hrest : others name (Entries d ++ [entry]) = Entries d).
  { rewrite others_app, (others_fresh name (Entries d) Hfresh).
    unfold others. cbn. rewrite String.eqb_refl. cbn. apply app_nil_r. }
  assert (Hlast : has_name name (Entries d ++ [entry]) = true)
    by apply has_name_last.
  assert (Hpath : forall m, handleTOTPRequestsByPath m path
                            = handleTOTPRequestsByID m name).
  { intros m. unfold handleTOTPRequestsByPath, path.
    now rewrite TrimPrefix_app. }
  exists w1, w2. eexists. eexists.
  split; [|split; [|split; [|split; [|split; [|split; [|split; [|split]]]]]]].
  - unfold handleTOTPRequests, createEntryHTTP. cbn [Name Secret entry].
    rewrite (eqb_empty_false name Hname), (eqb_empty_false secret Hsecret).
    cbn [orb]. unfold bind.
    rewrite (createEntry_fresh name secret d w Hload Hfault Hfresh). reflexivity.
  - reflexivity.
  - reflexivity.
  - apply find_entry_last. exact Hfresh.
  - rewrite Hpath. cbn [handleTOTPRequestsByID]. unfold removeEntryHTTP, bind.
    change (loadData w1) with (Done {| Entries := Entries d ++ [entry] |} w1).
    cbv beta iota. cbn [Entries].
    rewrite remove_loop_spec, Hlast. cbn [orb negb app].
    unfold saveData, bind, WriteFile.
    change (write_fault w1) with (write_fault w). rewrite Hfault.
    rewrite Hrest. reflexivity.
  - reflexivity.
  - reflexivity.
  - rewrite Hpath. cbn [handleTOTPRequestsByID]. unfold getCodeHTTP, bind.
    change (loadData w2) with (Done {| Entries := Entries d |} w2).
    cbv beta iota. cbn [Entries].
    now rewrite (find_entry_none name (Entries d) Hfresh).
  - rewrite Hpath. cbn [handleTOTPRequestsByID]. unfold removeEntryHTTP, bind.
    change (loadData w2) with (Done {| Entries := Entries d |} w2).
    cbv beta iota. cbn [Entries].
    rewrite remove_loop_spec, Hfresh. reflexivity.
Qed.

Lemma post_then_delete_witness :
  exists w1 w2 r2,
    handleTOTPRequestsByPath DELETE "/totps/mail" w1 = Done r2 w2
    /\ stored w1 = [acme; {| Name := "mail"; Secret := "GEZDGNBV" |}]
    /\ stored w2 = [acme].
Proof.
  assert (Hn : "mail" <> "") by discriminate.
  assert (Hs : "GEZDGNBV" <> "") by discriminate.
  destruct (post_then_delete
              (set_disk (Some (Document {| Entries := [acme] |})) (world0 0))
              {| Entries := [acme] |} "mail" "GEZDGNBV"
              eq_refl eq_refl eq_refl Hn Hs)
    as (w1 & w2 & r1 & r2 & _ & _ & H1 & _ & Hdel & _ & H2 & _).
  exists w1, w2, r2. split; [exact Hdel | split; assumption].
Defined.

(* ================================================================== *)
(** * Two calls at the same time, under every schedule *)
(* ================================================================== *)

Lemma loadData_entries w entries :
  loadData w = Done {| Entries := entries |} w -> stored w = entries.
Proof.
  unfold loadData, logFatalf, stored.
  destruct (disk w) as [[d| | |]|]; intros H; inversion H; reflexivity.
Qed.

Lemma race_step n1 s1 n2 s2 (b : bool) c1 c2 entries w :
  n1 <> n2 ->
  race n1 s1 n2 s2 c1 c2 entries ->
  loadData w = Done {| Entries := entries |} w ->
  write_fault w = NoFault ->
  exists c1' c2' w' entries',
    interleave [b] c1 c2 w = (c1', c2', w')
    /\ race n1 s1 n2 s2 c1' c2' entries'
    /\ loadData w' = Done {| Entries := entries' |} w'
    /\ write_fault w' = NoFault.
Proof.
  intros Hne Hrace Hload Hfault.
  assert (H12 : has_name n2 [{| Name := n1; Secret := s1 |}] = false).
  { unfold has_name. cbn. rewrite orb_false_r. now apply String.eqb_neq. }
  assert (H21 : has_name n1 [{| Name := n2; Secret := s2 |}] = false).
  { unfold has_name. cbn. rewrite orb_false_r.
    apply String.eqb_neq. congruence. }
  destruct Hrace; destruct b; cbn [interleave call_step];
    try rewrite Hload;
    try (rewrite createEntry_with_fresh
           by (exact Hfault || exact H12 || exact H21 || reflexivity));
    do 4 eexists;
    (split; [reflexivity|]);
    (split; [|split; [first [exact Hload | reflexivity] | exact Hfault]]);
    constructor.
Qed.

Lemma race_run n1 s1 n2 s2 (schedule : list bool) : forall c1 c2 entries w,
  n1 <> n2 ->
  race n1 s1 n2 s2 c1 c2 entries ->
  loadData w = Done {| Entries := entries |} w ->
  write_fault w = NoFault ->
  exists c1' c2' w' entries',
    interleave schedule c1 c2 w = (c1', c2', w')
    /\ race n1 s1 n2 s2 c1' c2' entries'
    /\ stored w' = entries'.
Proof.
  induction schedule as [|b schedule IH]; intros c1 c2 entries w Hne Hrace Hload Hfault.
  - exists c1, c2, w, entries. split; [reflexivity|].
    split; [assumption | now apply loadData_entries].
  - destruct (race_step n1 s1 n2 s2 b c1 c2 entries w Hne Hrace Hload Hfault)
      as (c1' & c2' & w' & entries' & Hstep & Hrace' & Hload' & Hfault').
    destruct (IH c1' c2' entries' w' Hne Hrace' Hload' Hfault')
      as (c1'' & c2'' & w'' & entries'' & Hrun & Hrace'' & Hstored).
    exists c1'', c2'', w'', entries''. split; [|split; assumption].
    cbn [interleave] in Hstep |- *.
    destruct b.
    + destruct (call_step c1 w) as [c w0]. inversion Hstep; subst. exact Hrun.
    + destruct (call_step c2 w) as [c w0]. inversion Hstep; subst. exact Hrun.
Qed.



(* ================================================================== *)
(** * The lookup on the command line *)
(* ================================================================== *)

(** X16. [getCode] on a store that loads.  Without an entry of that name it
    prints that none was found and does not read the clock.  Otherwise the
    first entry of that name is used and the clock is read once: a secret
    that yields no code ends the process; else the code and the seconds
    remaining are printed, then the code at the start of the next window
    (or the process ends when there is none), and last the line on the
    clipboard, on standard error when the value that [clipboard.Write]
    returned is not nil and on standard output when it is. *)
Theorem getCode_answers (w : World) (d : TOTPData) (name : string) :
  loadData w = Done d w ->
  let t := clock w (ticks w) in
  match find_entry name (Entries d) with
  | None => getCode name w = Done tt (to_stdout "No entry found with that name." w)
  | Some entry =>
      Name entry = name
      /\ match Totp.GenerateCode (Secret entry) t with
         | Err _ =>
             getCode name w
             = Exit (to_stderr "Error generating current TOTP code" (tick w))
         | Ok code =>
             let first :=
               to_stdout ("Your current TOTP code is: " ++ code
                          ++ " (Time remaining: " ++ itoa (secondsRemaining t)
                          ++ " seconds)")%string (tick w) in
             match Totp.GenerateCode (Secret entry) (nextTime t) with
             | Err _ =>
                 getCode name w
                 = Exit (to_stderr "Error generating next TOTP code" first)
             | Ok next =>
                 let second :=
                   to_stdout ("After this, your next TOTP code will be: "
                              ++ next)%string first in
                 getCode name w
                 = Done tt
                     (if clip_nonnil w
                      then to_stderr "Failed to copy code to clipboard" second
                      else to_stdout "Current code copied to clipboard." second)
             end
         end
  end.
Proof.
  intros Hload t. unfold getCode, bind. rewrite Hload.
  destruct (find_entry name (Entries d)) as [entry|] eqn:Hfind; [|reflexivity].
  split.
  { unfold find_entry in Hfind. apply find_some in Hfind as [_ H].
    now apply String.eqb_eq. }
  unfold Now. fold t.
  destruct (Totp.GenerateCode (Secret entry) t) as [code|e]; [|reflexivity].
  unfold Println at 1. unfold nextCode.
  destruct (Totp.GenerateCode (Secret entry) (nextTime t)) as [next|e];
    [|reflexivity].
  unfold Println at 1. unfold copy_to_clipboard.
  cbn [clip_nonnil to_stdout tick].
  destruct (clip_nonnil w); reflexivity.
Qed.

Lemma getCode_answers_witness :
  let w := set_disk (Some (Document {| Entries := [acme] |})) (world0 59) in
  stdout (final (getCode "acme" w))
  = ["Your current TOTP code is: 996554 (Time remaining: 1 seconds)";
     "After this, your next TOTP code will be: 602287";
     "Current code copied to clipboard."].
Proof.
  intros w.
  pose proof (getCode_answers w {| Entries := [acme] |} "acme" eq_refl) as H.
  destruct H as [_ H]. rewrite H. reflexivity.
Defined.
